(** * readers/postgres/messages.go: the PostgreSQL message reader

    A shallow embedding of [ReadAll], [fmtCondition] and [toMap], and the
    properties of the reader's specification stated over it.

    Go values are modelled as follows: [string] is Rocq's byte string,
    [uint64] is [N], [int64] is [Z], [float64] is the IEEE 754 datatype
    [spec_float] of the Standard Library, [map[string]interface{}] is
    [gmap string any], a slice is a [list], and a [(T, error)] result is
    either a sum [error + T] or a pair [T * option error] when the source
    returns both components. *)

From Stdlib Require Import ZArith NArith Floats.SpecFloat.
From stdpp Require Import gmap strings list fin_maps.

#[local] Set Warnings "-register-all".

(** ** Strings *)

Module Str.

(** [strings.Contains]: does [sub] occur somewhere in [s]. *)
Fixpoint contains (sub s : string) : bool :=
  String.prefix sub s ||
  match s with
  | EmptyString => false
  | String _ s' => contains sub s'
  end.

(** [fmt.Sprintf] with only [%s] verbs is the concatenation of its pieces. *)
Definition concat (pieces : list string) : string := foldr String.append EmptyString pieces.

(** The line feed and the tab of the raw string literals. *)
Definition LF : string := String (Ascii.ascii_of_nat 10) EmptyString.
Definition TAB : string := String (Ascii.ascii_of_nat 9) EmptyString.

End Str.

(** ** Go values *)

Abbreviation float64 := spec_float (only parsing).
Abbreviation uint64 := N (only parsing).
Abbreviation int64 := Z (only parsing).

(** The dynamic values an [interface{}] holds in this package: what
    [encoding/json] decodes into ([nil], [bool], [float64], [string],
    [[]interface{}], [map[string]interface{}]) and the scalars of the struct
    fields stored in maps ([int64], [uint64]). *)
Inductive any : Type :=
| Nil
| Bool (b : bool)
| Float64 (f : float64)
| String' (s : string)
| Int64 (z : int64)
| Uint64 (n : uint64)
| Slice (l : list any)
| Map (m : gmap string any).

#[global] Instance any_inhabited : Inhabited any := populate Nil.

(** Modelled from the spec: the error values of [pkg/errors], which is not in
    src/. The spec describes it as "an error-wrapping utility that attaches a
    stable top-level error tag to underlying causes": [New] makes a tag,
    [Wrap wrapper err] puts the tag [wrapper] on top of the cause [err] (both
    non-nil at every call site of this file). [Foreign] stands for an error
    made outside this package (database/sql, sqlx, encoding/json). A nil
    [error] is [None] in [option error]. *)
Inductive error : Type :=
| New (text : string)
| Wrap (wrapper err : error)
| Foreign (text : string).

Definition errReadMessages : error :=
  New "failed to read messages from postgres database".

(** An error carries the tag [tag] when it is [tag] wrapped around a cause. *)
Definition tagged (tag e : error) : Prop := ∃ cause, e = Wrap tag cause.

Definition defTable : string := "messages".

(** Modelled from the spec: [readers.PageMetadata], declared in package
    [readers], which is not in src/. The field names are the ones [ReadAll]
    reads; the JSON tag names are the spec's ("format, subtopic, publisher,
    name, protocol, v, vb, vs, vd, from, to, limit, offset"), and every
    filter field is omitted from the serialized form when it holds its zero
    value ("a filter field whose zero value serializes to nothing ... is
    treated as absent"). *)
Record PageMetadata : Type := {
  Offset : uint64;
  Limit : uint64;
  Subtopic : string;
  Publisher : string;
  Protocol : string;
  Name : string;
  Value : float64;
  BoolValue : bool;
  StringValue : string;
  DataValue : string;
  From : float64;
  To : float64;
  Format : string;
}.

Definition PageMetadata_zero : PageMetadata :=
  {| Offset := 0; Limit := 0;
     Subtopic := EmptyString; Publisher := EmptyString;
     Protocol := EmptyString; Name := EmptyString;
     Value := S754_zero false; BoolValue := false;
     StringValue := EmptyString; DataValue := EmptyString;
     From := S754_zero false; To := S754_zero false;
     Format := EmptyString |}.

(** ** encoding/json on [PageMetadata] *)

(** A JSON number read back into an [interface{}] is the nearest [float64]. *)
Definition float64_of_uint64 (n : uint64) : float64 :=
  binary_normalize 53 1024 (Z.of_N n) 0 false.

(** [b] lies between [lo] and [hi]. *)
Definition byte_between (lo hi : N) (b : Ascii.ascii) : bool :=
  (lo <=? Ascii.N_of_ascii b)%N && (Ascii.N_of_ascii b <=? hi)%N.

(** [utf8.DecodeRuneInString]: the width of the UTF-8 sequence at the head of
    [s], or [None] where the library answers [(RuneError, 1)]: the first byte
    starts no sequence, the second byte is outside the range the first one
    accepts, a later byte is no continuation byte, or the string ends
    early. *)
Definition rune_width (s : string) : option nat :=
  match s with
  | EmptyString => None
  | String s0 rest =>
      let n := Ascii.N_of_ascii s0 in
      if (n <? 0x80)%N then Some 1
      else if (n <? 0xC2)%N || (0xF4 <? n)%N then None
      else
        let width := if (n <? 0xE0)%N then 2 else if (n <? 0xF0)%N then 3 else 4 in
        let accept :=
          if (n =? 0xE0)%N then (0xA0, 0xBF)%N
          else if (n =? 0xED)%N then (0x80, 0x9F)%N
          else if (n =? 0xF0)%N then (0x90, 0xBF)%N
          else if (n =? 0xF4)%N then (0x80, 0x8F)%N
          else (0x80, 0xBF)%N in
        match rest with
        | EmptyString => None
        | String s1 rest1 =>
            if negb (byte_between accept.1 accept.2 s1) then None
            else if width =? 2 then Some 2
            else
              match rest1 with
              | EmptyString => None
              | String s2 rest2 =>
                  if negb (byte_between 0x80 0xBF s2) then None
                  else if width =? 3 then Some 3
                  else
                    match rest2 with
                    | EmptyString => None
                    | String s3 _ =>
                        if byte_between 0x80 0xBF s3 then Some 4 else None
                    end
              end
        end
  end.

(** U+FFFD in UTF-8. *)
Definition replacement_character : string :=
  String (Ascii.ascii_of_N 0xEF)
    (String (Ascii.ascii_of_N 0xBF) (String (Ascii.ascii_of_N 0xBD) EmptyString)).

(** A Go string written by [json.Marshal] and read back by [json.Unmarshal]:
    the encoder writes every byte at which [utf8.DecodeRuneInString] answers
    [(RuneError, 1)] as U+FFFD and goes on at the next byte; every other
    sequence comes back as it was. [copy] counts the bytes still to take over
    from the sequence in progress. *)
Fixpoint json_reread_from (copy : nat) (s : string) : string :=
  match s with
  | EmptyString => EmptyString
  | String b rest =>
      match copy with
      | S copy' => String b (json_reread_from copy' rest)
      | O =>
          match rune_width s with
          | Some width => String b (json_reread_from (width - 1) rest)
          | None => replacement_character +:+ json_reread_from 0 rest
          end
      end
  end.

Definition json_reread_string (s : string) : string := json_reread_from 0 s.

(** One member of the serialized object: a string or boolean field with
    [omitempty] is left out when empty; the value of a string member is the
    string as it is read back. *)
Definition member_string (tag s : string) : list (string * any) :=
  if decide (s = EmptyString) then [] else [(tag, String' (json_reread_string s))].

Definition member_bool (tag : string) (b : bool) : list (string * any) :=
  if b then [(tag, Bool true)] else [].

(** A [float64] field with [omitempty] is left out when it is zero; NaN and
    the infinities have no JSON form and make [json.Marshal] fail. *)
Definition member_float64 (tag : string) (f : float64) : error + list (string * any) :=
  match f with
  | S754_zero _ => inr []
  | S754_finite _ _ _ => inr [(tag, Float64 f)]
  | S754_infinity _ | S754_nan => inl (Foreign "json: unsupported value")
  end.

Definition member_uint64 (tag : string) (n : uint64) : list (string * any) :=
  [(tag, Float64 (float64_of_uint64 n))].

(** [json.Marshal(rpm)]: the members of the JSON object, in field order, each
    value given as [json.Unmarshal] reads it back. *)
Definition json_Marshal (rpm : PageMetadata) : error + list (string * any) :=
  match member_float64 "v" rpm.(Value),
        member_float64 "from" rpm.(From),
        member_float64 "to" rpm.(To) with
  | inr v, inr from, inr to =>
      inr (member_uint64 "offset" rpm.(Offset) ++
           member_uint64 "limit" rpm.(Limit) ++
           member_string "subtopic" rpm.(Subtopic) ++
           member_string "publisher" rpm.(Publisher) ++
           member_string "protocol" rpm.(Protocol) ++
           member_string "name" rpm.(Name) ++
           v ++
           member_bool "vb" rpm.(BoolValue) ++
           member_string "vs" rpm.(StringValue) ++
           member_string "vd" rpm.(DataValue) ++
           from ++ to ++
           member_string "format" rpm.(Format))
  | inl err, _, _ | _, inl err, _ | _, _, inl err => inl err
  end.

(** [json.Unmarshal(meta, &query)] into a nil [map[string]interface{}]: the
    members are stored one after the other, a later member replacing an
    earlier one of the same name. *)
Definition json_Unmarshal_map (meta : list (string * any)) : gmap string any :=
  list_to_map (reverse meta).

(** ** Iterating over a Go map *)

(** [for name := range query] visits every key once, in an order the Go
    runtime chooses anew for each loop. The choice is the argument [pick]:
    each number selects, among the keys not yet visited, the one to visit
    next; when [pick] is used up, the remaining keys follow as stored. *)
Fixpoint visit {A : Type} (pick : list nat) (keys : list A) : list A :=
  match pick with
  | [] => keys
  | n :: pick' =>
      let i := n mod length keys in
      match keys !! i with
      | None => []
      | Some k => k :: visit pick' (delete i keys)
      end
  end.

Definition range_keys (pick : list nat) (m : gmap string any) : list string :=
  visit pick (map_to_list m).*1.

(** ** fmtCondition *)

(** The body of the [switch name] statement: one pass of the loop. *)
Definition fmtCondition_case (condition name : string) : string :=
  if String.eqb name "subtopic" || String.eqb name "publisher"
     || String.eqb name "name" || String.eqb name "protocol"
  then Str.concat [condition; " AND "; name; " = :"; name]
  else if String.eqb name "v" then Str.concat [condition; " AND value = :value"]
  else if String.eqb name "vb" then Str.concat [condition; " AND bool_value = :bool_value"]
  else if String.eqb name "vs" then Str.concat [condition; " AND string_value = :string_value"]
  else if String.eqb name "vd" then Str.concat [condition; " AND data_value = :data_value"]
  else if String.eqb name "from" then Str.concat [condition; " AND time >= :from"]
  else if String.eqb name "to" then Str.concat [condition; " AND time < :to"]
  else condition.

Definition fmtCondition (pick : list nat) (chanID : string) (rpm : PageMetadata) : string :=
  let condition := "channel = :channel" in
  match json_Marshal rpm with
  | inl _ => condition
  | inr meta =>
      let query := json_Unmarshal_map meta in
      foldl fmtCondition_case condition (range_keys pick query)
  end.

(** The filter fields in the order the [switch] lists them. *)
Definition filter_fields : list string :=
  ["subtopic"; "publisher"; "name"; "protocol"; "v"; "vb"; "vs"; "vd"; "from"; "to"].

(** The text one pass of the loop appends for [name]. *)
Definition clause (name : string) : string := fmtCondition_case EmptyString name.

(** The generic map the builder inspects: [query], which is still the nil map
    when serialization fails. *)
Definition query_of (rpm : PageMetadata) : gmap string any :=
  match json_Marshal rpm with
  | inl _ => ∅
  | inr meta => json_Unmarshal_map meta
  end.

(** A filter field is present when its tag name is a key of the generic map. *)
Definition present (rpm : PageMetadata) (name : string) : Prop :=
  is_Some (query_of rpm !! name).

#[global] Instance present_dec rpm name : Decision (present rpm name).
Proof. unfold present. apply _. Defined.


(** ** Rows and messages *)

(** [dbMessage]: the embedded [senml.Message] is declared in
    [pkg/transformers/senml], which is not in src/, and is a parameter. *)
Module dbMessage.
Record t (senml_Message : Type) : Type := {
  ID : string;
  Message : senml_Message;
}.
Arguments ID {_} _.
Arguments Message {_} _.
End dbMessage.

Module jsonMessage.
Record t : Type := {
  ID : string;
  Channel : string;
  Created : int64;
  Subtopic : string;
  Publisher : string;
  Protocol : string;
  Payload : list Byte.byte;
}.
End jsonMessage.

(** What [ReadAll] calls but does not define: the row cursor of sqlx, the
    decoder of encoding/json and the flattening transform of
    [pkg/transformers/json]. A [row] is a position of the cursor at which
    [rows.Next()] returned true. *)
Class Env : Type := {
  senml_Message : Type;
  row : Type;
  (** [rows.StructScan(&msg)] with [msg] a [dbMessage] *)
  StructScan_dbMessage : row → error + dbMessage.t senml_Message;
  (** [rows.StructScan(&msg)] with [msg] a [jsonMessage] *)
  StructScan_jsonMessage : row → error + jsonMessage.t;
  (** [rows.Scan(&total)] *)
  Scan_uint64 : row → error + uint64;
  (** [json.Unmarshal(payload, &pld)] with [pld] an empty map *)
  json_Unmarshal : list Byte.byte → error + gmap string any;
  (** [jsont.ParseFlat] *)
  ParseFlat : any → any;
}.

(** [readers.Message] is [interface{}]; [ReadAll] stores a [senml.Message] or
    a [map[string]interface{}] in it. *)
Inductive Message `{Env} : Type :=
| SenML (m : senml_Message)
| Generic (m : gmap string any).

(** Modelled from the spec: [readers.MessagesPage], declared in package
    [readers], which is not in src/: it "echoes the input page metadata,
    carries the ordered sequence of decoded messages ... and a total count".
    The field names are the ones [ReadAll] writes. *)
Record MessagesPage `{Env} : Type := {
  PageMetadata' : PageMetadata;
  Total : uint64;
  Messages : list Message;
}.

(** [readers.MessagesPage{}] *)
Definition MessagesPage_zero `{Env} : MessagesPage :=
  {| PageMetadata' := PageMetadata_zero; Total := 0; Messages := [] |}.

(** ** The database *)

(** A computation that sends named queries to the database: it either
    returns, or issues [db.NamedQuery(q, params)] and goes on with the answer,
    an error or the rows of the cursor. *)
Inductive DB `{Env} (A : Type) : Type :=
| Return (a : A)
| NamedQuery (q : string) (params : gmap string any) (k : error + list row → DB A).
Arguments Return {_ _} _.
Arguments NamedQuery {_ _} _ _ _.

(** [postgresRepository]: the handle [db] answers each named query. *)
Record postgresRepository `{Env} : Type := {
  db : string → gmap string any → error + list row;
}.

Fixpoint exec `{Env} {A : Type} (tr : postgresRepository) (p : DB A) : A :=
  match p with
  | Return a => a
  | NamedQuery q params k => exec tr (k (db tr q params))
  end.

(** The text of the first query a computation issues. *)
Definition first_query `{Env} {A : Type} (p : DB A) : option string :=
  match p with
  | Return _ => None
  | NamedQuery q _ _ => Some q
  end.

(** ** toMap *)

Definition toMap `{Env} (msg : jsonMessage.t) : error + gmap string any :=
  let ret : gmap string any :=
    list_to_map [
      ("id", String' msg.(jsonMessage.ID));
      ("channel", String' msg.(jsonMessage.Channel));
      ("created", Int64 msg.(jsonMessage.Created));
      ("subtopic", String' msg.(jsonMessage.Subtopic));
      ("publisher", String' msg.(jsonMessage.Publisher));
      ("protocol", String' msg.(jsonMessage.Protocol));
      ("payload", Map ∅)
    ] in
  match json_Unmarshal msg.(jsonMessage.Payload) with
  | inl err => inl err
  | inr pld => inr (<["payload" := Map pld]> ret)
  end.

(** ** ReadAll *)

Definition with_Format (rpm : PageMetadata) (format : string) : PageMetadata :=
  {| Offset := rpm.(Offset); Limit := rpm.(Limit); Subtopic := rpm.(Subtopic);
     Publisher := rpm.(Publisher); Protocol := rpm.(Protocol); Name := rpm.(Name);
     Value := rpm.(Value); BoolValue := rpm.(BoolValue);
     StringValue := rpm.(StringValue); DataValue := rpm.(DataValue);
     From := rpm.(From); To := rpm.(To); Format := format |}.

(** The first statements of [ReadAll]: the ordering column, and [rpm] with
    its format defaulted. *)
Definition ReadAll_order (rpm : PageMetadata) : string :=
  if decide (rpm.(Format) = EmptyString) then "time" else "created".

Definition ReadAll_rpm (rpm : PageMetadata) : PageMetadata :=
  if decide (rpm.(Format) = EmptyString) then with_Format rpm defTable else rpm.

(** The two query texts; [rpm] is the page metadata after defaulting and
    [pick] the order in which [fmtCondition] walks its map in that call. *)
Definition select_query (pick : list nat) (chanID : string) (rpm : PageMetadata)
    (order : string) : string :=
  Str.concat ["SELECT * FROM "; rpm.(Format); Str.LF;
              "    WHERE "; fmtCondition pick chanID rpm;
              " ORDER BY "; order; " DESC"; Str.LF;
              Str.TAB; "LIMIT :limit OFFSET :offset;"].

Definition count_query (pick : list nat) (chanID : string) (rpm : PageMetadata) : string :=
  Str.concat ["SELECT COUNT(*) FROM "; rpm.(Format);
              " WHERE "; fmtCondition pick chanID rpm; ";"].

Definition query_params (chanID : string) (rpm : PageMetadata) : gmap string any :=
  list_to_map [
    ("channel", String' chanID);
    ("limit", Uint64 rpm.(Limit));
    ("offset", Uint64 rpm.(Offset));
    ("subtopic", String' rpm.(Subtopic));
    ("publisher", String' rpm.(Publisher));
    ("name", String' rpm.(Name));
    ("protocol", String' rpm.(Protocol));
    ("value", Float64 rpm.(Value));
    ("bool_value", Bool rpm.(BoolValue));
    ("string_value", String' rpm.(StringValue));
    ("data_value", String' rpm.(DataValue));
    ("from", Float64 rpm.(From));
    ("to", Float64 rpm.(To))
  ].

(** [page.Messages = append(page.Messages, m)] *)
Definition append_Message `{Env} (page : MessagesPage) (m : Message) : MessagesPage :=
  {| PageMetadata' := page.(PageMetadata'); Total := page.(Total);
     Messages := page.(Messages) ++ [m] |}.

Definition set_Total `{Env} (page : MessagesPage) (total : uint64) : MessagesPage :=
  {| PageMetadata' := page.(PageMetadata'); Total := total;
     Messages := page.(Messages) |}.

(** The loop of [case defTable]. A failure leaves the function with the
    wrapped error (and [readers.MessagesPage{}]). *)
Fixpoint scan_senml `{Env} (rows : list row) (page : MessagesPage) : error + MessagesPage :=
  match rows with
  | [] => inr page
  | r :: rows' =>
      match StructScan_dbMessage r with
      | inl err => inl (Wrap errReadMessages err)
      | inr msg => scan_senml rows' (append_Message page (SenML msg.(dbMessage.Message)))
      end
  end.

(** The loop of [default]. *)
Fixpoint scan_json `{Env} (rows : list row) (page : MessagesPage) : error + MessagesPage :=
  match rows with
  | [] => inr page
  | r :: rows' =>
      match StructScan_jsonMessage r with
      | inl err => inl (Wrap errReadMessages err)
      | inr msg =>
          match toMap msg with
          | inl err => inl (Wrap errReadMessages err)
          | inr m =>
              let m := <["payload" := ParseFlat (m !!! "payload")]> m in
              scan_json rows' (append_Message page (Generic m))
          end
      end
  end.

(** [switch rpm.Format] *)
Definition scan_rows `{Env} (format : string) (rows : list row) (page : MessagesPage)
    : error + MessagesPage :=
  if decide (format = defTable) then scan_senml rows page else scan_json rows page.

(** [ReadAll]; [pick1] and [pick2] are the iteration orders of the two calls
    of [fmtCondition]. [defer rows.Close()] has no effect on the result. *)
Definition ReadAll `{Env} (pick1 pick2 : list nat) (chanID : string) (rpm : PageMetadata)
    : DB (MessagesPage * option error) :=
  let order := ReadAll_order rpm in
  let rpm := ReadAll_rpm rpm in
  let q := select_query pick1 chanID rpm order in
  let params := query_params chanID rpm in
  NamedQuery q params (λ answer,
    match answer with
    | inl err => Return (MessagesPage_zero, Some (Wrap errReadMessages err))
    | inr rows =>
        let page := {| PageMetadata' := rpm; Total := 0; Messages := [] |} in
        match scan_rows rpm.(Format) rows page with
        | inl err => Return (MessagesPage_zero, Some err)
        | inr page =>
            let q := count_query pick2 chanID rpm in
            NamedQuery q params (λ answer,
              match answer with
              | inl err => Return (MessagesPage_zero, Some (Wrap errReadMessages err))
              | inr rows =>
                  let total := 0%N in
                  match rows with
                  | r :: _ =>
                      match Scan_uint64 r with
                      | inl err => Return (page, Some err)
                      | inr total => Return (set_Total page total, None)
                      end
                  | [] => Return (set_Total page total, None)
                  end
              end)
        end
    end).

(** ** Vocabulary of the properties *)

(** What the database answers to the two queries of one call of [ReadAll]. *)
Definition page_answer `{Env} (tr : postgresRepository) (pick : list nat)
    (chanID : string) (rpm : PageMetadata) : error + list row :=
  db tr (select_query pick chanID (ReadAll_rpm rpm) (ReadAll_order rpm))
        (query_params chanID (ReadAll_rpm rpm)).

Definition count_answer `{Env} (tr : postgresRepository) (pick : list nat)
    (chanID : string) (rpm : PageMetadata) : error + list row :=
  db tr (count_query pick chanID (ReadAll_rpm rpm))
        (query_params chanID (ReadAll_rpm rpm)).

(** The format selects the typed decoder: it is empty or names the default
    table. *)
Definition default_format (format : string) : Prop :=
  format = EmptyString ∨ format = defTable.

#[global] Instance default_format_dec format : Decision (default_format format).
Proof. unfold default_format. apply _. Defined.

(** [m] is the typed record of row [r]. *)
Definition typed_message `{Env} (r : row) (m : Message) : Prop :=
  ∃ msg, StructScan_dbMessage r = inr msg ∧ m = SenML msg.(dbMessage.Message).

(** [m] is the generic mapping of row [r]: the scalar columns, and under
    [payload] the decoded payload passed through [ParseFlat]. *)
Definition generic_message `{Env} (r : row) (m : Message) : Prop :=
  ∃ msg pld g,
    StructScan_jsonMessage r = inr msg ∧
    json_Unmarshal msg.(jsonMessage.Payload) = inr pld ∧
    m = Generic g ∧
    g !! "payload" = Some (ParseFlat (Map pld)) ∧
    g !! "id" = Some (String' msg.(jsonMessage.ID)) ∧
    g !! "channel" = Some (String' msg.(jsonMessage.Channel)) ∧
    g !! "created" = Some (Int64 msg.(jsonMessage.Created)) ∧
    g !! "subtopic" = Some (String' msg.(jsonMessage.Subtopic)) ∧
    g !! "publisher" = Some (String' msg.(jsonMessage.Publisher)) ∧
    g !! "protocol" = Some (String' msg.(jsonMessage.Protocol)).

(** Row [r] of a generic-format read cannot be decoded, for the reason
    [cause]: the scan fails, or the payload is not a JSON object. *)
Definition row_decode_failure `{Env} (r : row) (cause : error) : Prop :=
  StructScan_jsonMessage r = inl cause ∨
  ∃ msg, StructScan_jsonMessage r = inr msg ∧
         json_Unmarshal msg.(jsonMessage.Payload) = inl cause.

(** The payload column of row [r] is not valid JSON. *)
Definition malformed_payload `{Env} (r : row) : Prop :=
  ∃ msg cause, StructScan_jsonMessage r = inr msg ∧
               json_Unmarshal msg.(jsonMessage.Payload) = inl cause.

(** ** New, and more vocabulary *)

(** [New]: the repository around the database handle (the name [New] is the
    constructor of the error values here). *)
Definition postgres_New `{Env} (handle : string → gmap string any → error + list row)
    : postgresRepository :=
  {| db := handle |}.

(** The queries a computation sends to the database of [tr], in the order it
    sends them, each with its named parameters. *)
Fixpoint queries `{Env} {A : Type} (tr : postgresRepository) (p : DB A)
    : list (string * gmap string any) :=
  match p with
  | Return _ => []
  | NamedQuery q params k => (q, params) :: queries tr (k (db tr q params))
  end.

(** A [float64] other than the two zeros. *)
Definition nonzero (f : float64) : Prop :=
  match f with
  | S754_zero _ => False
  | _ => True
  end.

(** The filter field with tag [name] holds a value: a non-empty string,
    [true], or a number other than zero. *)
Definition filter_set (rpm : PageMetadata) (name : string) : Prop :=
  name = "subtopic" ∧ rpm.(Subtopic) ≠ EmptyString ∨
  name = "publisher" ∧ rpm.(Publisher) ≠ EmptyString ∨
  name = "name" ∧ rpm.(Name) ≠ EmptyString ∨
  name = "protocol" ∧ rpm.(Protocol) ≠ EmptyString ∨
  name = "v" ∧ nonzero rpm.(Value) ∨
  name = "vb" ∧ rpm.(BoolValue) = true ∨
  name = "vs" ∧ rpm.(StringValue) ≠ EmptyString ∨
  name = "vd" ∧ rpm.(DataValue) ≠ EmptyString ∨
  name = "from" ∧ nonzero rpm.(From) ∨
  name = "to" ∧ nonzero rpm.(To).

(** The typed scan of row [r] succeeds. *)
Definition typed_row_decodes `{Env} (r : row) : Prop :=
  ∃ msg, StructScan_dbMessage r = inr msg.

(** The generic scan of row [r] succeeds and its payload is a JSON object. *)
Definition generic_row_decodes `{Env} (r : row) : Prop :=
  ∃ msg pld, StructScan_jsonMessage r = inr msg ∧
             json_Unmarshal msg.(jsonMessage.Payload) = inr pld.

(** The keys of the mapping [toMap] builds. *)
Definition toMap_keys : gset string :=
  list_to_set ["id"; "channel"; "created"; "subtopic"; "publisher"; "protocol"; "payload"].

(** A scalar of the parameter map as [encoding/json] gives it back after
    [json.Marshal] and [json.Unmarshal] into an [interface{}]: a string with
    its invalid UTF-8 replaced, a number as the nearest [float64]. *)
Definition json_reread (v : any) : any :=
  match v with
  | String' s => String' (json_reread_string s)
  | Uint64 n => Float64 (float64_of_uint64 n)
  | Int64 z => Float64 (binary_normalize 53 1024 z 0 false)
  | _ => v
  end.

(** ** A database small enough to evaluate *)

(** The rows of the examples: a row of the [messages] table (its SenML record
    stands as a name), a row of a JSON table, the row of a [COUNT] query, and
    a row holding one text column. *)
Inductive demo_row : Type :=
| SenMLRow (id name : string)
| JSONRow (msg : jsonMessage.t)
| CountRow (n : uint64)
| TextRow (s : string).

(** The decoder of the examples reads the empty object; the other payload the
    examples use is cut short. *)
#[global] Instance demo_env : Env := {|
  senml_Message := string;
  row := demo_row;
  StructScan_dbMessage r :=
    match r with
    | SenMLRow id name => inr {| dbMessage.ID := id; dbMessage.Message := name |}
    | _ => inl (Foreign "missing destination name")
    end;
  StructScan_jsonMessage r :=
    match r with
    | JSONRow msg => inr msg
    | _ => inl (Foreign "missing destination name")
    end;
  Scan_uint64 r :=
    match r with
    | CountRow n => inr n
    | _ => inl (Foreign "sql: Scan error on column index 0")
    end;
  json_Unmarshal payload :=
    if String.eqb (String.string_of_list_byte payload) "{}" then inr ∅
    else inl (Foreign "unexpected end of JSON input");
  ParseFlat v := v;
|}.

(** A database that answers the page query with [page_answer] and the count
    query with [count_answer]. *)
Definition demo_tr (page_answer count_answer : error + list demo_row) : postgresRepository :=
  {| db q _ := if String.prefix "SELECT COUNT(*)" q then count_answer else page_answer |}.

Definition demo_json_row (payload : string) : demo_row :=
  JSONRow {| jsonMessage.ID := "1"; jsonMessage.Channel := "ch1";
             jsonMessage.Created := 7; jsonMessage.Subtopic := "temp";
             jsonMessage.Publisher := "p1"; jsonMessage.Protocol := "mqtt";
             jsonMessage.Payload := String.list_byte_of_string payload |}.


(** Page requests of the examples. *)
Definition rpm_two_filters : PageMetadata :=
  {| Offset := 0; Limit := 10;
     Subtopic := "temp"; Publisher := "p1";
     Protocol := EmptyString; Name := EmptyString;
     Value := S754_zero false; BoolValue := false;
     StringValue := EmptyString; DataValue := EmptyString;
     From := S754_zero false; To := S754_zero false;
     Format := EmptyString |}.


Definition rpm_nan : PageMetadata :=
  {| Offset := 0; Limit := 10;
     Subtopic := "temp"; Publisher := EmptyString;
     Protocol := EmptyString; Name := EmptyString;
     Value := S754_nan; BoolValue := false;
     StringValue := EmptyString; DataValue := EmptyString;
     From := S754_zero false; To := S754_zero false;
     Format := EmptyString |}.

Definition rpm_limit (limit : uint64) (format : string) : PageMetadata :=
  {| Offset := 0; Limit := limit;
     Subtopic := EmptyString; Publisher := EmptyString;
     Protocol := EmptyString; Name := EmptyString;
     Value := S754_zero false; BoolValue := false;
     StringValue := EmptyString; DataValue := EmptyString;
     From := S754_zero false; To := S754_zero false;
     Format := format |}.

(** The databases of the examples. *)
Definition tr_no_rows : postgresRepository :=
  demo_tr (inr []) (inr [CountRow 0]).


Definition tr_scan_fails : postgresRepository :=
  demo_tr (inr [SenMLRow "1" "m1"]) (inr [TextRow "many"]).


Definition tr_generic : postgresRepository :=
  demo_tr (inr [demo_json_row "{}"]) (inr [CountRow 1]).

Definition tr_malformed : postgresRepository :=
  demo_tr (inr [demo_json_row "{}"; demo_json_row "{"]) (inr [CountRow 2]).

Definition tr_page_query_fails : postgresRepository :=
  demo_tr (inl (Foreign "connection refused")) (inr [CountRow 0]).

Definition tr_count_query_fails : postgresRepository :=
  demo_tr (inr [SenMLRow "1" "m1"]) (inl (Foreign "connection refused")).

Definition tr_two_count_rows : postgresRepository :=
  demo_tr (inr [SenMLRow "1" "m1"]) (inr [CountRow 5; CountRow 9]).

Definition tr_typed_bad_row : postgresRepository :=
  demo_tr (inr [SenMLRow "1" "m1"; TextRow "x"; SenMLRow "2" "m2"]) (inr [CountRow 3]).

Definition tr_generic_bad_rows : postgresRepository :=
  demo_tr (inr [demo_json_row "{}"; CountRow 1; demo_json_row "{"]) (inr [CountRow 3]).


Definition tr_generic_no_count : postgresRepository :=
  demo_tr (inr [demo_json_row "{}"; demo_json_row "{}"]) (inr []).

(** The request [rpm_two_filters] with other values in the same fields. *)
Definition rpm_two_filters' : PageMetadata :=
  {| Offset := 20; Limit := 5;
     Subtopic := "humidity"; Publisher := "p2";
     Protocol := EmptyString; Name := EmptyString;
     Value := S754_zero false; BoolValue := false;
     StringValue := EmptyString; DataValue := EmptyString;
     From := S754_zero false; To := S754_zero false;
     Format := "json" |}.

(** A request whose subtopic is the single byte FF, which is not UTF-8. *)
Definition rpm_invalid_utf8 : PageMetadata :=
  {| Offset := 0; Limit := 10;
     Subtopic := String (Ascii.ascii_of_N 0xFF) EmptyString; Publisher := EmptyString;
     Protocol := EmptyString; Name := EmptyString;
     Value := S754_zero false; BoolValue := false;
     StringValue := EmptyString; DataValue := EmptyString;
     From := S754_zero false; To := S754_zero false;
     Format := EmptyString |}.

(** * Properties *)

(** ** Strings *)

Module StrFacts.
Import Str.

Lemma app_cons (a : Ascii.ascii) (s t : string) :
  String a s +:+ t = String a (s +:+ t).
Proof. reflexivity. Qed.

Lemma app_nil_l (s : string) : EmptyString +:+ s = s.
Proof. reflexivity. Qed.

Lemma app_nil_r (s : string) : s +:+ EmptyString = s.
Proof. induction s as [|a s IH]; [done|]. by rewrite app_cons, IH. Qed.

Lemma app_assoc (s1 s2 s3 : string) : (s1 +:+ s2) +:+ s3 = s1 +:+ s2 +:+ s3.
Proof. induction s1 as [|a s1 IH]; [done|]. by rewrite !app_cons, IH. Qed.

Lemma prefix_app (sub post : string) : String.prefix sub (sub +:+ post) = true.
Proof.
  induction sub as [|a sub IH]; [by destruct post|].
  rewrite app_cons. cbn.
  destruct (Ascii.ascii_dec a a); [exact IH|congruence].
Qed.

Lemma contains_app (sub pre post : string) :
  contains sub (pre +:+ sub +:+ post) = true.
Proof.
  induction pre as [|a pre IH].
  - rewrite app_nil_l.
    destruct (sub +:+ post) eqn:E; cbn [contains]; rewrite <- E, prefix_app; done.
  - rewrite app_cons. cbn [contains]. rewrite IH. apply orb_true_r.
Qed.

Lemma concat_app (l1 l2 : list string) : concat (l1 ++ l2) = concat l1 +:+ concat l2.
Proof.
  induction l1 as [|s l1 IH]; [done|].
  cbn [app concat foldr]. fold (concat (l1 ++ l2)) (concat l1).
  by rewrite IH, app_assoc.
Qed.

End StrFacts.

(** ** Properties of the iteration order *)

Section Visit.
Context {A : Type}.
Implicit Types (keys : list A) (pick : list nat).

Lemma visit_Permutation pick keys : visit pick keys ≡ₚ keys.
Proof.
  revert keys. induction pick as [|n pick IH]; intros keys; [done|].
  cbn [visit]. destruct (keys !! (n mod length keys)) as [k|] eqn:E.
  - rewrite IH. symmetry. by apply delete_Permutation.
  - destruct keys as [|k keys]; [done|].
    apply lookup_ge_None_1 in E.
    pose proof (Nat.mod_upper_bound n (length (k :: keys))) as Hlt.
    cbn [length] in *. lia.
Qed.

(** Every order is the order of some choice. *)
Lemma visit_complete keys order :
  order ≡ₚ keys → ∃ pick, visit pick keys = order.
Proof.
  revert keys. induction order as [|k order IH]; intros keys Hp.
  - apply Permutation_nil_l in Hp as ->. by exists [].
  - assert (k ∈ keys) as Hin by (rewrite <- Hp; left).
    apply list_elem_of_lookup in Hin as [i Hi].
    pose proof (lookup_lt_Some _ _ _ Hi) as Hlt.
    destruct (IH (delete i keys)) as [pick Hpick].
    { apply (inj (k ::.)). rewrite Hp.
      by apply delete_Permutation. }
    exists (i :: pick). cbn [visit].
    by rewrite Nat.mod_small, Hi, Hpick.
Qed.
End Visit.

Lemma filter_all {A} (P : A → Prop) `{∀ x, Decision (P x)} (l : list A) :
  (∀ x, x ∈ l → P x) → filter P l = l.
Proof.
  induction l as [|x l IH]; intros Hall; [done|].
  rewrite filter_cons_True by (apply Hall; left).
  f_equal. apply IH. intros y Hy. apply Hall. by right.
Qed.

Lemma filter_none {A} (P : A → Prop) `{∀ x, Decision (P x)} (l : list A) :
  (∀ x, x ∈ l → ¬ P x) → filter P l = [].
Proof.
  induction l as [|x l IH]; intros Hall; [done|].
  rewrite filter_cons_False by (apply Hall; left).
  apply IH. intros y Hy. apply Hall. by right.
Qed.

Lemma range_keys_Permutation pick (m : gmap string any) :
  range_keys pick m ≡ₚ (map_to_list m).*1.
Proof. apply visit_Permutation. Qed.

Lemma range_keys_NoDup pick (m : gmap string any) : NoDup (range_keys pick m).
Proof. rewrite range_keys_Permutation. apply NoDup_fst_map_to_list. Qed.

Lemma elem_of_range_keys pick (m : gmap string any) name :
  name ∈ range_keys pick m ↔ is_Some (m !! name).
Proof.
  rewrite range_keys_Permutation, list_elem_of_fmap. split.
  - intros [[k v] [-> Hkv]]. apply elem_of_map_to_list in Hkv. by exists v.
  - intros [v Hv]. exists (name, v). split; [done|]. by apply elem_of_map_to_list.
Qed.

(** ** Properties of one pass of the loop *)

Lemma fmtCondition_case_clause condition name :
  fmtCondition_case condition name = condition +:+ clause name.
Proof.
  unfold clause, fmtCondition_case, Str.concat.
  repeat (destruct (_ || _) || destruct (String.eqb _ _));
    cbn [foldr]; by rewrite ?StrFacts.app_nil_l, ?StrFacts.app_nil_r.
Qed.

Lemma clause_unlisted name : name ∉ filter_fields → clause name = EmptyString.
Proof.
  intros Hn. unfold clause, fmtCondition_case.
  assert (∀ f, f ∈ filter_fields → String.eqb name f = false) as Hf.
  { intros f Hin. apply String.eqb_neq. by intros ->. }
  rewrite !Hf; [done|unfold filter_fields; set_solver..].
Qed.

Lemma foldl_fmtCondition_case condition names :
  foldl fmtCondition_case condition names
  = condition +:+ Str.concat (clause <$> names).
Proof.
  revert condition. induction names as [|n names IH]; intros condition.
  - cbn. by rewrite StrFacts.app_nil_r.
  - cbn [foldl fmap list_fmap Str.concat foldr].
    by rewrite IH, fmtCondition_case_clause, StrFacts.app_assoc.
Qed.

Lemma concat_clause_listed names :
  Str.concat (clause <$> names)
  = Str.concat (clause <$> filter (.∈ filter_fields) names).
Proof.
  induction names as [|n names IH]; [done|].
  rewrite filter_cons. destruct (decide (n ∈ filter_fields)) as [Hin|Hout].
  - cbn [fmap list_fmap Str.concat foldr]. f_equal. exact IH.
  - cbn [fmap list_fmap Str.concat foldr].
    by rewrite (clause_unlisted _ Hout), StrFacts.app_nil_l.
Qed.

(** The recognised keys of the generic map are the present filter fields. *)
Lemma listed_keys_present pick rpm :
  filter (.∈ filter_fields) (range_keys pick (query_of rpm))
  ≡ₚ filter (present rpm) filter_fields.
Proof.
  apply NoDup_Permutation.
  - apply NoDup_filter, range_keys_NoDup.
  - apply NoDup_filter. apply (bool_decide_unpack _). by vm_compute.
  - intros name. rewrite !list_elem_of_filter, elem_of_range_keys.
    unfold present. tauto.
Qed.

(** The shape of every result of [fmtCondition]. *)
Lemma fmtCondition_shape pick chanID rpm :
  fmtCondition pick chanID rpm
  = "channel = :channel"
    +:+ Str.concat (clause <$> filter (.∈ filter_fields) (range_keys pick (query_of rpm))).
Proof.
  unfold fmtCondition, query_of. destruct (json_Marshal rpm) as [err|meta].
  - unfold range_keys. rewrite map_to_list_empty, fmap_nil.
    assert (visit pick ([] : list string) = []) as ->.
    { apply Permutation_nil_r. apply visit_Permutation. }
    by rewrite filter_nil.
  - cbv zeta. by rewrite foldl_fmtCondition_case, <- concat_clause_listed.
Qed.

(** ** Properties of the presence test *)

Lemma query_of_lookup rpm name v :
  query_of rpm !! name = Some v →
  ∃ meta, json_Marshal rpm = inr meta ∧ (name, v) ∈ meta.
Proof.
  unfold query_of. destruct (json_Marshal rpm) as [err|meta]; intros Hl.
  { by rewrite lookup_empty in Hl. }
  exists meta. split; [done|].
  apply elem_of_list_to_map_2 in Hl. by rewrite elem_of_reverse in Hl.
Qed.




Lemma member_uint64_inv tag n name v : (name, v) ∈ member_uint64 tag n → name = tag.
Proof. by intros [= -> ->]%list_elem_of_singleton. Qed.






(** A present filter contributes its clause to the predicate. *)
Lemma fmtCondition_contains_clause pick chanID rpm name :
  name ∈ filter_fields → present rpm name →
  Str.contains (clause name) (fmtCondition pick chanID rpm) = true.
Proof.
  intros Hfield Hpresent. rewrite fmtCondition_shape.
  assert (name ∈ filter (.∈ filter_fields) (range_keys pick (query_of rpm))) as Hin.
  { rewrite listed_keys_present. by apply list_elem_of_filter. }
  apply list_elem_of_split in Hin as (l1 & l2 & ->).
  rewrite fmap_app, fmap_cons, StrFacts.concat_app.
  cbn [Str.concat foldr]. fold (Str.concat (clause <$> l2)).
  rewrite <- StrFacts.app_assoc. apply StrFacts.contains_app.
Qed.

(** ** Properties of the decoders *)

Section Decoders.
Context `{Env}.
Implicit Types (rows : list row) (page : MessagesPage).

Lemma toMap_inl msg cause :
  toMap msg = inl cause ↔ json_Unmarshal msg.(jsonMessage.Payload) = inl cause.
Proof. unfold toMap. destruct (json_Unmarshal _); split; congruence. Qed.

Lemma toMap_generic r msg m :
  StructScan_jsonMessage r = inr msg → toMap msg = inr m →
  generic_message r (Generic (<["payload" := ParseFlat (m !!! "payload")]> m)).
Proof.
  intros Hscan Hmap. unfold toMap in Hmap.
  destruct (json_Unmarshal _) as [|pld] eqn:Hpld; [done|].
  injection Hmap as <-. eexists msg, pld, _.
  split_and!; [done..| | | | | | |]; cbn [list_to_map foldr curry fst snd].
  - by rewrite lookup_insert_eq, lookup_total_insert_eq.
  - by simplify_map_eq.
  - by simplify_map_eq.
  - by simplify_map_eq.
  - by simplify_map_eq.
  - by simplify_map_eq.
  - by simplify_map_eq.
Qed.

Lemma scan_senml_inr rows page page' :
  scan_senml rows page = inr page' →
  page'.(PageMetadata') = page.(PageMetadata') ∧
  page'.(Total) = page.(Total) ∧
  ∃ msgs, page'.(Messages) = page.(Messages) ++ msgs ∧
          Forall2 typed_message rows msgs.
Proof.
  revert page. induction rows as [|r rows IH]; intros page; cbn [scan_senml].
  - intros [= <-]. split_and!; [done..|]. exists []. by rewrite app_nil_r.
  - destruct (StructScan_dbMessage r) as [|msg] eqn:Hscan; [done|].
    intros (Hmeta & Htotal & msgs & Hmsgs & Hall)%IH. cbn in *.
    split_and!; [done..|]. exists (SenML msg.(dbMessage.Message) :: msgs).
    rewrite Hmsgs, <- app_assoc. split; [done|].
    constructor; [by exists msg|done].
Qed.

Lemma scan_json_inr rows page page' :
  scan_json rows page = inr page' →
  page'.(PageMetadata') = page.(PageMetadata') ∧
  page'.(Total) = page.(Total) ∧
  ∃ msgs, page'.(Messages) = page.(Messages) ++ msgs ∧
          Forall2 generic_message rows msgs.
Proof.
  revert page. induction rows as [|r rows IH]; intros page; cbn [scan_json].
  - intros [= <-]. split_and!; [done..|]. exists []. by rewrite app_nil_r.
  - destruct (StructScan_jsonMessage r) as [|msg] eqn:Hscan; [done|].
    destruct (toMap msg) as [|m] eqn:Hmap; [done|].
    intros (Hmeta & Htotal & msgs & Hmsgs & Hall)%IH. cbn in *.
    split_and!; [done..|]. eexists (_ :: msgs).
    rewrite Hmsgs, <- app_assoc. split; [done|].
    constructor; [by eapply toMap_generic|done].
Qed.

Lemma scan_senml_inl rows page e :
  scan_senml rows page = inl e → tagged errReadMessages e.
Proof.
  revert page. induction rows as [|r rows IH]; intros page; cbn [scan_senml]; [done|].
  destruct (StructScan_dbMessage r) as [cause|msg]; [|by apply IH].
  intros [= <-]. by exists cause.
Qed.

Lemma scan_json_inl rows page e :
  scan_json rows page = inl e →
  ∃ r cause, r ∈ rows ∧ row_decode_failure r cause ∧ e = Wrap errReadMessages cause.
Proof.
  revert page. induction rows as [|r rows IH]; intros page; cbn [scan_json]; [done|].
  destruct (StructScan_jsonMessage r) as [cause|msg] eqn:Hscan.
  { intros [= <-]. exists r, cause. split_and!; [left|by left|done]. }
  destruct (toMap msg) as [cause|m] eqn:Hmap.
  { intros [= <-]. exists r, cause. apply toMap_inl in Hmap.
    split_and!; [left|right; by exists msg|done]. }
  intros (r' & cause & Hin & Hfail & ->)%IH.
  exists r', cause. split_and!; [by right|done..].
Qed.

(** One malformed payload makes the whole loop fail. *)
Lemma scan_json_malformed rows page r :
  r ∈ rows → malformed_payload r → ∃ e, scan_json rows page = inl e.
Proof.
  intros Hin (msg & cause & Hscan & Hpld%toMap_inl). revert page.
  induction rows as [|r' rows IH]; intros page; [by apply elem_of_nil in Hin|].
  cbn [scan_json]. apply elem_of_cons in Hin as [<-|Hin].
  - rewrite Hscan, Hpld. eauto.
  - destruct (StructScan_jsonMessage r') as [|msg']; [eauto|].
    destruct (toMap msg'); [eauto|]. by apply IH.
Qed.

Lemma scan_rows_inl format rows page e :
  scan_rows format rows page = inl e → tagged errReadMessages e.
Proof.
  unfold scan_rows. case_decide.
  - apply scan_senml_inl.
  - intros (r & cause & _ & _ & ->)%scan_json_inl. by exists cause.
Qed.

Lemma scan_rows_inr format rows page page' :
  scan_rows format rows page = inr page' →
  page'.(PageMetadata') = page.(PageMetadata') ∧
  page'.(Total) = page.(Total) ∧
  ∃ msgs, page'.(Messages) = page.(Messages) ++ msgs ∧
          if decide (format = defTable)
          then Forall2 typed_message rows msgs
          else Forall2 generic_message rows msgs.
Proof.
  unfold scan_rows. case_decide.
  - apply scan_senml_inr.
  - apply scan_json_inr.
Qed.

End Decoders.

(** ** Properties of ReadAll *)

Section ReadAllFacts.
Context `{Env}.

Lemma with_Format_same rpm : with_Format rpm rpm.(Format) = rpm.
Proof. by destruct rpm. Qed.

Lemma ReadAll_rpm_with_Format rpm :
  ReadAll_rpm rpm
  = with_Format rpm (if decide (rpm.(Format) = EmptyString) then defTable else rpm.(Format)).
Proof. unfold ReadAll_rpm. case_decide; [done|]. by rewrite with_Format_same. Qed.

Lemma ReadAll_rpm_default rpm :
  (ReadAll_rpm rpm).(Format) = defTable ↔ default_format rpm.(Format).
Proof.
  unfold ReadAll_rpm, default_format.
  destruct (decide (rpm.(Format) = EmptyString)) as [Hf|Hf]; cbn.
  - split; [by left|done].
  - split; [by right|by intros [?|?]].
Qed.

(** The result of [ReadAll] from the two answers of the database. *)
Lemma exec_ReadAll tr pick1 pick2 chanID rpm :
  exec tr (ReadAll pick1 pick2 chanID rpm)
  = match page_answer tr pick1 chanID rpm with
    | inl err => (MessagesPage_zero, Some (Wrap errReadMessages err))
    | inr rows =>
        match scan_rows (ReadAll_rpm rpm).(Format) rows
                {| PageMetadata' := ReadAll_rpm rpm; Total := 0; Messages := [] |} with
        | inl err => (MessagesPage_zero, Some err)
        | inr page =>
            match count_answer tr pick2 chanID rpm with
            | inl err => (MessagesPage_zero, Some (Wrap errReadMessages err))
            | inr [] => (set_Total page 0, None)
            | inr (r :: _) =>
                match Scan_uint64 r with
                | inl err => (page, Some err)
                | inr total => (set_Total page total, None)
                end
            end
        end
    end.
Proof.
  unfold ReadAll, page_answer, count_answer. cbn [exec].
  destruct (db tr _ _) as [|rows]; [done|].
  destruct (scan_rows _ _ _) as [|page]; [done|]. cbn [exec].
  destruct (db tr _ _) as [|[|r rows']]; [done..|].
  by destruct (Scan_uint64 r).
Qed.

(** A successful call: the rows of the page query all decode, and the
    total is the scalar of the count query, or zero without a row. *)
Lemma ReadAll_success tr pick1 pick2 chanID rpm page :
  exec tr (ReadAll pick1 pick2 chanID rpm) = (page, None) →
  ∃ rows crows,
    page_answer tr pick1 chanID rpm = inr rows ∧
    count_answer tr pick2 chanID rpm = inr crows ∧
    page.(PageMetadata') = ReadAll_rpm rpm ∧
    (if decide (default_format rpm.(Format))
     then Forall2 typed_message rows page.(Messages)
     else Forall2 generic_message rows page.(Messages)) ∧
    match crows with
    | [] => page.(Total) = 0%N
    | r :: _ => Scan_uint64 r = inr page.(Total)
    end.
Proof.
  rewrite exec_ReadAll.
  destruct (page_answer _ _ _ _) as [|rows]; [done|].
  destruct (scan_rows _ _ _) as [|page0] eqn:Hscan; [done|].
  apply scan_rows_inr in Hscan as (Hmeta & _ & msgs & Hmsgs & Hall).
  cbn in Hmeta, Hmsgs. subst msgs.
  assert (if decide (default_format rpm.(Format))
          then Forall2 typed_message rows page0.(Messages)
          else Forall2 generic_message rows page0.(Messages)) as Hall'.
  { pose proof (ReadAll_rpm_default rpm).
    repeat case_decide; tauto. }
  destruct (count_answer _ _ _ _) as [|[|r crows]]; [done| |].
  - intros [= <-]. by exists rows, [].
  - destruct (Scan_uint64 r) as [|total] eqn:Hcount; [done|].
    intros [= <-]. by exists rows, (r :: crows).
Qed.

(** A failed call either reports the tagged error with the empty page, or,
    when the scalar of the count query cannot be read, the bare scan error
    with the decoded page. *)
Lemma ReadAll_failure tr pick1 pick2 chanID rpm page e :
  exec tr (ReadAll pick1 pick2 chanID rpm) = (page, Some e) →
  (page = MessagesPage_zero ∧ tagged errReadMessages e) ∨
  (∃ rows r crows,
     page_answer tr pick1 chanID rpm = inr rows ∧
     count_answer tr pick2 chanID rpm = inr (r :: crows) ∧
     Scan_uint64 r = inl e ∧
     length page.(Messages) = length rows).
Proof.
  rewrite exec_ReadAll.
  destruct (page_answer _ _ _ _) as [cause|rows].
  { intros [= <- <-]. left. split; [done|by exists cause]. }
  destruct (scan_rows _ _ _) as [|page0] eqn:Hscan.
  { intros [= <- <-]. left. split; [done|by eapply scan_rows_inl]. }
  destruct (count_answer _ _ _ _) as [cause|[|r crows]]; [|done|].
  { intros [= <- <-]. left. split; [done|by exists cause]. }
  destruct (Scan_uint64 r) as [cause|] eqn:Hcount; [|done].
  intros [= <- <-]. right. exists rows, r, crows. split_and!; [done..|].
  apply scan_rows_inr in Hscan as (_ & _ & msgs & -> & Hall). cbn.
  case_decide; by apply Forall2_length in Hall.
Qed.

Lemma set_Total_same (page : MessagesPage) : set_Total page page.(Total) = page.
Proof. by destruct page. Qed.

End ReadAllFacts.

(** * The claims of the specification *)

(** ** The condition builder *)

(** Every order of the present filters is the result of some run: the
    iteration order of the map is the only freedom, and it is complete. *)
Lemma fmtCondition_any_order chanID rpm names :
  names ≡ₚ filter (present rpm) filter_fields →
  ∃ pick, fmtCondition pick chanID rpm
          = "channel = :channel" +:+ Str.concat (clause <$> names).
Proof.
  intros Hnames.
  set (keys := (map_to_list (query_of rpm)).*1).
  destruct (visit_complete keys (names ++ filter (λ k, ¬ k ∈ filter_fields) keys))
    as [pick Hpick].
  { rewrite Hnames, <- (listed_keys_present [] rpm).
    unfold range_keys. cbn [visit]. fold keys. apply filter_app_complement. }
  exists pick. rewrite fmtCondition_shape. unfold range_keys. fold keys.
  rewrite Hpick, filter_app.
  assert (filter (.∈ filter_fields) names = names) as ->.
  { apply filter_all. intros k Hk. rewrite Hnames in Hk.
    by apply list_elem_of_filter in Hk as [_ ?]. }
  assert (filter (.∈ filter_fields) (filter (λ k, ¬ k ∈ filter_fields) keys) = []) as ->.
  { apply filter_none. intros k Hk. by apply list_elem_of_filter in Hk as [? _]. }
  by rewrite app_nil_r.
Qed.

(** C3 (amended). For every filter request, the predicate built by
    [fmtCondition] is [channel = :channel] followed by the AND clauses of
    exactly the filter fields that are present, each once; the clauses come in
    the order in which the run walks the generic map, which is some
    permutation of the enumeration order of the filter fields. *)
Theorem fmtCondition_combines_present pick chanID rpm :
  clause <$> filter_fields
  = [" AND subtopic = :subtopic"; " AND publisher = :publisher";
     " AND name = :name"; " AND protocol = :protocol";
     " AND value = :value"; " AND bool_value = :bool_value";
     " AND string_value = :string_value"; " AND data_value = :data_value";
     " AND time >= :from"; " AND time < :to"] ∧
  ∃ names, names ≡ₚ filter (present rpm) filter_fields ∧
           fmtCondition pick chanID rpm
           = "channel = :channel" +:+ Str.concat (clause <$> names).
Proof.
  split; [reflexivity|].
  exists (filter (.∈ filter_fields) (range_keys pick (query_of rpm))).
  split; [apply listed_keys_present|apply fmtCondition_shape].
Qed.

(** C3 as stated fails: with the subtopic and the publisher set, a run that
    meets the key [publisher] first writes the publisher clause before the
    subtopic clause, against the enumeration order. *)
Lemma fmtCondition_enumeration_order_fails :
  ¬ (∀ pick chanID rpm,
       fmtCondition pick chanID rpm
       = "channel = :channel"
         +:+ Str.concat (clause <$> filter (present rpm) filter_fields)).
Proof.
  intros Hc. specialize (Hc [3] "ch1" rpm_two_filters).
  vm_compute in Hc. discriminate Hc.
Qed.



(** C6. The predicate always starts with [channel = :channel], and when the
    page metadata cannot be serialized the builder returns exactly that
    text; its result is a string, so no error can come out of it. *)
Theorem fmtCondition_channel pick chanID rpm :
  (∃ rest, fmtCondition pick chanID rpm = "channel = :channel" +:+ rest) ∧
  Str.contains "channel = :channel" (fmtCondition pick chanID rpm) = true ∧
  (∀ err, json_Marshal rpm = inl err →
          fmtCondition pick chanID rpm = "channel = :channel").
Proof.
  split_and!.
  - rewrite fmtCondition_shape. eauto.
  - rewrite fmtCondition_shape.
    exact (StrFacts.contains_app "channel = :channel" EmptyString _).
  - intros err Herr. unfold fmtCondition. by rewrite Herr.
Qed.

Lemma fmtCondition_channel_witness :
  json_Marshal rpm_nan = inl (Foreign "json: unsupported value") ∧
  fmtCondition [] "ch1" rpm_nan = "channel = :channel".
Proof.
  split; [reflexivity|].
  destruct (fmtCondition_channel [] "ch1" rpm_nan) as (_ & _ & Hfail).
  apply (Hfail (Foreign "json: unsupported value")). reflexivity.
Defined.

(** ** ReadAll *)

(** A call with an empty format on a table without matching rows. *)
Lemma ReadAll_no_rows_exec :
  exec tr_no_rows (ReadAll [] [] "ch1" (rpm_limit 10 EmptyString))
  = ({| PageMetadata' := rpm_limit 10 "messages"; Total := 0; Messages := [] |}, None).
Proof. vm_compute. reflexivity. Qed.

(** C1 (amended). The first query [ReadAll] sends is the SELECT, and it
    orders the rows descending by the timestamp column [time] when the
    requested format is empty (the table is then [messages]), and descending
    by the insertion-order column [created] when a format is requested. *)
Theorem ReadAll_order_by `{Env} pick1 pick2 chanID rpm :
  first_query (ReadAll pick1 pick2 chanID rpm)
  = Some (Str.concat
      ["SELECT * FROM ";
       (if decide (rpm.(Format) = EmptyString) then "messages" else rpm.(Format)); Str.LF;
       "    WHERE "; fmtCondition pick1 chanID (ReadAll_rpm rpm);
       " ORDER BY "; (if decide (rpm.(Format) = EmptyString) then "time" else "created");
       " DESC"; Str.LF;
       Str.TAB; "LIMIT :limit OFFSET :offset;"]).
Proof.
  unfold ReadAll, first_query, select_query, ReadAll_order.
  do 2 f_equal. unfold ReadAll_rpm. by case_decide.
Qed.

(** C1 as stated fails: with an empty format the SELECT does not order by
    [created], it orders by [time]. *)
Lemma ReadAll_order_by_created_fails :
  ¬ (∀ (E : Env) pick1 pick2 chanID rpm,
       ∃ q, first_query (ReadAll pick1 pick2 chanID rpm) = Some q ∧
            Str.contains
              (" ORDER BY "
               +:+ (if decide (rpm.(Format) = EmptyString) then "created" else "time")
               +:+ " DESC") q = true).
Proof.
  intros Hc.
  destruct (Hc demo_env [] [] "ch1" PageMetadata_zero) as (q & Hq & Hcontains).
  vm_compute in Hq. injection Hq as <-.
  vm_compute in Hcontains. discriminate Hcontains.
Qed.

(** C2 fails on the code: when the scalar of the count query cannot be
    scanned, [ReadAll] returns the page it has decoded, with its message,
    next to the bare scan error, which does not carry the tag
    [errReadMessages]. *)
Theorem ReadAll_count_scan_failure :
  ∃ page e,
    exec tr_scan_fails (ReadAll [] [] "ch1" (rpm_limit 10 EmptyString))
    = (page, Some e) ∧
    e = Foreign "sql: Scan error on column index 0" ∧
    ¬ tagged errReadMessages e ∧
    page.(Messages) = [SenML "m1"].
Proof.
  eexists _, _. split; [vm_compute; reflexivity|].
  split; [reflexivity|]. split; [|reflexivity].
  intros [cause Hcause]. discriminate Hcause.
Qed.

(** C4 (amended). A successful [ReadAll] returns the input page metadata
    with every field unchanged except the format selector, which is the
    default table name [messages] when the caller passed it empty. *)
Theorem ReadAll_echoes_metadata `{Env} tr pick1 pick2 chanID rpm page :
  exec tr (ReadAll pick1 pick2 chanID rpm) = (page, None) →
  page.(PageMetadata')
  = with_Format rpm (if decide (rpm.(Format) = EmptyString) then defTable else rpm.(Format)).
Proof.
  intros (rows & crows & _ & _ & Hmeta & _)%ReadAll_success.
  by rewrite Hmeta, ReadAll_rpm_with_Format.
Qed.

Lemma ReadAll_echoes_metadata_witness :
  exec tr_no_rows (ReadAll [] [] "ch1" (rpm_limit 10 EmptyString))
  = ({| PageMetadata' := rpm_limit 10 "messages"; Total := 0; Messages := [] |}, None) ∧
  rpm_limit 10 "messages" = with_Format (rpm_limit 10 EmptyString) defTable.
Proof.
  split; [exact ReadAll_no_rows_exec|].
  exact (ReadAll_echoes_metadata tr_no_rows [] [] "ch1" (rpm_limit 10 EmptyString) _
           ReadAll_no_rows_exec).
Defined.

(** C4 as stated fails: called with an empty format, a successful [ReadAll]
    returns metadata whose format is [messages], not the empty one passed. *)
Lemma ReadAll_echo_unchanged_fails :
  ¬ (∀ (E : Env) (tr : postgresRepository) pick1 pick2 chanID rpm page,
       exec tr (ReadAll pick1 pick2 chanID rpm) = (page, None) →
       page.(PageMetadata') = rpm).
Proof.
  intros Hc.
  pose proof (Hc demo_env tr_no_rows [] [] "ch1" (rpm_limit 10 EmptyString) _
                 ReadAll_no_rows_exec) as Heq.
  discriminate Heq.
Qed.

(** A generic-format read of two rows, the second with a payload cut short. *)
Lemma ReadAll_malformed_exec :
  exec tr_malformed (ReadAll [] [] "ch1" (rpm_limit 10 "json"))
  = (MessagesPage_zero,
     Some (Wrap errReadMessages (Foreign "unexpected end of JSON input"))).
Proof. vm_compute. reflexivity. Qed.

(** C7. In a generic-format read, when the page query returns a row whose
    payload column is not valid JSON, the call fails: it returns the error of
    a row that cannot be decoded, under the tag [errReadMessages], and the
    empty page, which holds no message. *)
Theorem ReadAll_malformed_payload `{Env} tr pick1 pick2 chanID rpm rows r :
  ¬ default_format rpm.(Format) →
  page_answer tr pick1 chanID rpm = inr rows →
  r ∈ rows →
  malformed_payload r →
  ∃ r' cause page,
    r' ∈ rows ∧ row_decode_failure r' cause ∧
    exec tr (ReadAll pick1 pick2 chanID rpm)
    = (page, Some (Wrap errReadMessages cause)) ∧
    page = MessagesPage_zero ∧ length page.(Messages) = 0.
Proof.
  intros Hformat Hrows Hin Hbad. rewrite exec_ReadAll, Hrows.
  unfold scan_rows. rewrite decide_False by by rewrite ReadAll_rpm_default.
  destruct (scan_json_malformed rows
              {| PageMetadata' := ReadAll_rpm rpm; Total := 0; Messages := [] |}
              r Hin Hbad) as [e He].
  rewrite He. apply scan_json_inl in He as (r' & cause & Hin' & Hfail & ->).
  by exists r', cause, MessagesPage_zero.
Qed.

Lemma ReadAll_malformed_payload_witness :
  malformed_payload (demo_json_row "{") ∧
  ∃ page, exec tr_malformed (ReadAll [] [] "ch1" (rpm_limit 10 "json"))
          = (page, Some (Wrap errReadMessages (Foreign "unexpected end of JSON input"))) ∧
          length page.(Messages) = 0.
Proof.
  assert (malformed_payload (demo_json_row "{")) as Hbad.
  { eexists _, _. split; reflexivity. }
  split; [exact Hbad|].
  destruct (ReadAll_malformed_payload tr_malformed [] [] "ch1" (rpm_limit 10 "json")
              [demo_json_row "{}"; demo_json_row "{"] (demo_json_row "{"))
    as (r' & cause & page & _ & _ & Hexec & _ & Hlen).
  - intros [Hf|Hf]; discriminate Hf.
  - reflexivity.
  - right; left.
  - exact Hbad.
  - exists page. split; [|exact Hlen].
    rewrite Hexec. rewrite ReadAll_malformed_exec in Hexec.
    injection Hexec as _ Hcause. by rewrite Hcause.
Defined.

(** C8. After a successful [ReadAll], the returned messages are, row by row
    and in the order of the rows of the page query: the typed SenML records
    when the format selects the default table (it is empty or [messages]),
    and otherwise generic mappings whose [payload] field is the decoded JSON
    payload passed through [ParseFlat]. *)
Theorem ReadAll_message_representation `{Env} tr pick1 pick2 chanID rpm page :
  exec tr (ReadAll pick1 pick2 chanID rpm) = (page, None) →
  ∃ rows,
    page_answer tr pick1 chanID rpm = inr rows ∧
    if decide (default_format rpm.(Format))
    then Forall2 typed_message rows page.(Messages)
    else Forall2 generic_message rows page.(Messages).
Proof.
  intros (rows & crows & Hrows & _ & _ & Hall & _)%ReadAll_success. by exists rows.
Qed.

(** A generic-format read of one row holding the empty object. *)
Lemma ReadAll_generic_exec :
  ∃ g, exec tr_generic (ReadAll [] [] "ch1" (rpm_limit 10 "json"))
       = ({| PageMetadata' := rpm_limit 10 "json"; Total := 1;
             Messages := [Generic g] |}, None).
Proof. eexists. vm_compute. reflexivity. Qed.

Lemma ReadAll_message_representation_witness :
  ∃ page,
    exec tr_generic (ReadAll [] [] "ch1" (rpm_limit 10 "json")) = (page, None) ∧
    Forall2 generic_message [demo_json_row "{}"] page.(Messages).
Proof.
  destruct ReadAll_generic_exec as [g Hexec].
  eexists. split; [exact Hexec|].
  destruct (ReadAll_message_representation tr_generic [] [] "ch1"
              (rpm_limit 10 "json") _ Hexec) as (rows & Hrows & Hall).
  injection Hrows as <-. exact Hall.
Defined.







Section DecodableRows.
Context `{Env}.
Implicit Types (rows : list row) (page : MessagesPage).

(** The loops go through when every row can be decoded. *)
Lemma scan_senml_decodes rows page :
Forall typed_row_decodes rows → ∃ page', scan_senml rows page = inr page'.
Proof.
intros Hrows. revert page.
induction Hrows as [|r rows [msg Hmsg] _ IH]; intros page; cbn [scan_senml].
- by exists page.
- rewrite Hmsg. apply IH.
Qed.

Lemma scan_json_decodes rows page :
Forall generic_row_decodes rows → ∃ page', scan_json rows page = inr page'.
Proof.
intros Hrows. revert page.
induction Hrows as [|r rows (msg & pld & Hmsg & Hpld) _ IH]; intros page;
  cbn [scan_json].
- by exists page.
- rewrite Hmsg. unfold toMap. rewrite Hpld. apply IH.
Qed.

End DecodableRows.

(** C10. When the page query succeeds, every row it returned can be decoded
    in the format of the call, and the count query succeeds without
    returning a row, [ReadAll] returns no error and the decoded page: the
    defaulted metadata, a total of zero, and the message of each row of the
    page query, in the order of the rows. *)
Theorem ReadAll_count_without_row `{Env} tr pick1 pick2 chanID rpm rows :
  page_answer tr pick1 chanID rpm = inr rows →
  (if decide (default_format rpm.(Format))
   then Forall typed_row_decodes rows
   else Forall generic_row_decodes rows) →
  count_answer tr pick2 chanID rpm = inr [] →
  ∃ page,
    exec tr (ReadAll pick1 pick2 chanID rpm) = (page, None) ∧
    page.(Total) = 0%N ∧
    page.(PageMetadata') = ReadAll_rpm rpm ∧
    if decide (default_format rpm.(Format))
    then Forall2 typed_message rows page.(Messages)
    else Forall2 generic_message rows page.(Messages).
Proof.
  intros Hrows Hdecode Hcount.
  assert (∃ page, scan_rows (ReadAll_rpm rpm).(Format) rows
            {| PageMetadata' := ReadAll_rpm rpm; Total := 0; Messages := [] |}
          = inr page) as [page Hscan].
  { unfold scan_rows. pose proof (ReadAll_rpm_default rpm) as Hdefault.
    destruct (decide (default_format rpm.(Format))) as [Hd|Hd].
    - rewrite decide_True by tauto. by apply scan_senml_decodes.
    - rewrite decide_False by tauto. by apply scan_json_decodes. }
  exists page. rewrite exec_ReadAll, Hrows, Hscan, Hcount.
  apply scan_rows_inr in Hscan as (Hmeta & Htotal & msgs & Hmsgs & Hall).
  cbn in Hmeta, Htotal, Hmsgs. subst msgs.
  split_and!; [by rewrite <- Htotal, set_Total_same|done..|].
  pose proof (ReadAll_rpm_default rpm). repeat case_decide; tauto.
Qed.

Lemma ReadAll_count_without_row_witness :
  count_answer tr_generic_no_count [] "ch1" (rpm_limit 10 "json") = inr [] ∧
  ∃ page,
    exec tr_generic_no_count (ReadAll [] [] "ch1" (rpm_limit 10 "json"))
    = (page, None) ∧
    page.(Total) = 0%N ∧
    Forall2 generic_message [demo_json_row "{}"; demo_json_row "{}"] page.(Messages).
Proof.
  split; [reflexivity|].
  destruct (ReadAll_count_without_row tr_generic_no_count [] [] "ch1"
              (rpm_limit 10 "json") [demo_json_row "{}"; demo_json_row "{}"])
    as (page & Hexec & Htotal & _ & Hall).
  - reflexivity.
  - rewrite decide_False by (intros [Hf|Hf]; discriminate Hf).
    repeat constructor; eexists _, _; split; reflexivity.
  - reflexivity.
  - exists page. rewrite decide_False in Hall by (intros [Hf|Hf]; discriminate Hf).
    exact (conj Hexec (conj Htotal Hall)).
Defined.

(** * Further properties of the code *)

(** ** What [ReadAll] sends *)

(** X1. [ReadAll] sends the SELECT first. It sends the COUNT second, on the
    same table and with the same parameter map, exactly when the page query
    succeeded and every row was decoded; it sends nothing after a failure and
    never a third query. *)
Theorem ReadAll_queries `{Env} tr pick1 pick2 chanID rpm :
  queries tr (ReadAll pick1 pick2 chanID rpm)
  = (select_query pick1 chanID (ReadAll_rpm rpm) (ReadAll_order rpm),
     query_params chanID (ReadAll_rpm rpm))
    :: match page_answer tr pick1 chanID rpm with
       | inl _ => []
       | inr rows =>
           match scan_rows (ReadAll_rpm rpm).(Format) rows
                   {| PageMetadata' := ReadAll_rpm rpm; Total := 0; Messages := [] |} with
           | inl _ => []
           | inr _ => [(count_query pick2 chanID (ReadAll_rpm rpm),
                        query_params chanID (ReadAll_rpm rpm))]
           end
       end.
Proof.
  unfold ReadAll, page_answer. cbn [queries]. f_equal.
  destruct (db tr _ _) as [|rows]; [done|].
  destruct (scan_rows _ _ _) as [|page]; [done|]. cbn [queries]. f_equal.
  destruct (db tr _ _) as [|[|r crows]]; [done..|].
  by destruct (Scan_uint64 r).
Qed.

(** ** Failures of the two queries *)

(** X2. When the page query fails, [ReadAll] returns the empty page and the
    error of the driver under the tag [errReadMessages], and the count query
    is not sent. *)
Theorem ReadAll_page_query_failure `{Env} tr pick1 pick2 chanID rpm err :
  page_answer tr pick1 chanID rpm = inl err →
  exec tr (ReadAll pick1 pick2 chanID rpm)
  = (MessagesPage_zero, Some (Wrap errReadMessages err)) ∧
  length (queries tr (ReadAll pick1 pick2 chanID rpm)) = 1.
Proof.
  intros Hpage. split.
  - by rewrite exec_ReadAll, Hpage.
  - unfold ReadAll. cbn [queries]. fold (page_answer tr pick1 chanID rpm).
    by rewrite Hpage.
Qed.

Lemma ReadAll_page_query_failure_witness :
  page_answer tr_page_query_fails [] "ch1" (rpm_limit 10 EmptyString)
  = inl (Foreign "connection refused") ∧
  exec tr_page_query_fails (ReadAll [] [] "ch1" (rpm_limit 10 EmptyString))
  = (MessagesPage_zero, Some (Wrap errReadMessages (Foreign "connection refused"))).
Proof.
  split; [reflexivity|].
  destruct (ReadAll_page_query_failure tr_page_query_fails [] [] "ch1"
              (rpm_limit 10 EmptyString) (Foreign "connection refused")) as [Hexec _].
  - reflexivity.
  - exact Hexec.
Defined.

(** X3. When the count query fails after the rows of the page were decoded,
    [ReadAll] drops the decoded messages: it returns the empty page and the
    error of the driver under the tag [errReadMessages]. *)
Theorem ReadAll_count_query_failure `{Env} tr pick1 pick2 chanID rpm rows page err :
  page_answer tr pick1 chanID rpm = inr rows →
  scan_rows (ReadAll_rpm rpm).(Format) rows
    {| PageMetadata' := ReadAll_rpm rpm; Total := 0; Messages := [] |} = inr page →
  count_answer tr pick2 chanID rpm = inl err →
  exec tr (ReadAll pick1 pick2 chanID rpm)
  = (MessagesPage_zero, Some (Wrap errReadMessages err)).
Proof. intros Hpage Hscan Hcount. by rewrite exec_ReadAll, Hpage, Hscan, Hcount. Qed.

Lemma ReadAll_count_query_failure_witness :
  count_answer tr_count_query_fails [] "ch1" (rpm_limit 10 EmptyString)
  = inl (Foreign "connection refused") ∧
  exec tr_count_query_fails (ReadAll [] [] "ch1" (rpm_limit 10 EmptyString))
  = (MessagesPage_zero, Some (Wrap errReadMessages (Foreign "connection refused"))).
Proof.
  split; [reflexivity|].
  apply (ReadAll_count_query_failure tr_count_query_fails [] [] "ch1" (rpm_limit 10 EmptyString)
           [SenMLRow "1" "m1"]
           {| PageMetadata' := rpm_limit 10 "messages"; Total := 0;
              Messages := [@SenML demo_env "m1"] |}).
  - reflexivity.
  - vm_compute. reflexivity.
  - reflexivity.
Defined.

(** The scalar of the first row of the count cursor is the total. *)
Lemma ReadAll_two_count_rows_exec :
  exec tr_two_count_rows (ReadAll [] [] "ch1" (rpm_limit 10 EmptyString))
  = ({| PageMetadata' := rpm_limit 10 "messages"; Total := 5;
        Messages := [SenML "m1"] |}, None).
Proof. vm_compute. reflexivity. Qed.

(** X4. When both queries succeed, every row of the page is decoded and the
    first row of the count cursor scans to [n], [ReadAll] returns the decoded
    page with the total [n] and no error; the rows that follow on the count
    cursor are not read. *)
Theorem ReadAll_total_from_count `{Env} tr pick1 pick2 chanID rpm rows page r crows n :
  page_answer tr pick1 chanID rpm = inr rows →
  scan_rows (ReadAll_rpm rpm).(Format) rows
    {| PageMetadata' := ReadAll_rpm rpm; Total := 0; Messages := [] |} = inr page →
  count_answer tr pick2 chanID rpm = inr (r :: crows) →
  Scan_uint64 r = inr n →
  exec tr (ReadAll pick1 pick2 chanID rpm)
  = ({| PageMetadata' := ReadAll_rpm rpm; Total := n; Messages := page.(Messages) |},
     None) ∧
  length page.(Messages) = length rows.
Proof.
  intros Hpage Hscan Hcount Hn.
  rewrite exec_ReadAll, Hpage, Hscan, Hcount, Hn.
  apply scan_rows_inr in Hscan as (Hmeta & _ & msgs & Hmsgs & Hall).
  cbn in Hmeta, Hmsgs. unfold set_Total. rewrite Hmeta. split; [done|].
  rewrite Hmsgs. case_decide; symmetry; by eapply Forall2_length.
Qed.

Lemma ReadAll_total_from_count_witness :
  count_answer tr_two_count_rows [] "ch1" (rpm_limit 10 EmptyString)
  = inr [CountRow 5; CountRow 9] ∧
  exec tr_two_count_rows (ReadAll [] [] "ch1" (rpm_limit 10 EmptyString))
  = ({| PageMetadata' := rpm_limit 10 "messages"; Total := 5;
        Messages := [SenML "m1"] |}, None).
Proof.
  split; [reflexivity|].
  destruct (ReadAll_total_from_count tr_two_count_rows [] [] "ch1" (rpm_limit 10 EmptyString)
              [SenMLRow "1" "m1"]
              {| PageMetadata' := rpm_limit 10 "messages"; Total := 0;
                 Messages := [@SenML demo_env "m1"] |}
              (CountRow 5) [CountRow 9] 5%N) as [Hexec _].
  - reflexivity.
  - vm_compute. reflexivity.
  - reflexivity.
  - reflexivity.
  - exact Hexec.
Defined.

(** ** Rows that cannot be decoded *)

Section FirstFailure.
Context `{Env}.
Implicit Types (rows : list row) (page : MessagesPage).

Lemma scan_senml_first_failure ok r rest page cause :
Forall typed_row_decodes ok →
StructScan_dbMessage r = inl cause →
scan_senml (ok ++ r :: rest) page = inl (Wrap errReadMessages cause).
Proof.
intros Hok Hr. revert page.
induction Hok as [|r' ok [msg Hmsg] _ IH]; intros page; cbn [app scan_senml].
- by rewrite Hr.
- rewrite Hmsg. apply IH.
Qed.

Lemma scan_json_first_failure ok r rest page cause :
Forall generic_row_decodes ok →
row_decode_failure r cause →
scan_json (ok ++ r :: rest) page = inl (Wrap errReadMessages cause).
Proof.
intros Hok Hr. revert page.
induction Hok as [|r' ok (msg & pld & Hmsg & Hpld) _ IH]; intros page;
  cbn [app scan_json].
- destruct Hr as [Hr|(msg & Hmsg & Hpld%toMap_inl)].
  + by rewrite Hr.
  + by rewrite Hmsg, Hpld.
- rewrite Hmsg. unfold toMap. rewrite Hpld. apply IH.
Qed.

End FirstFailure.

Lemma ReadAll_typed_bad_row_exec :
  exec tr_typed_bad_row (ReadAll [] [] "ch1" (rpm_limit 10 EmptyString))
  = (MessagesPage_zero,
     Some (Wrap errReadMessages (Foreign "missing destination name"))).
Proof. vm_compute. reflexivity. Qed.

(** X5. In a read of the default table, when the rows before [r] scan into
    typed records and [r] does not, [ReadAll] returns the empty page and the
    scan error of [r] under the tag [errReadMessages]: the records decoded
    before [r] are dropped and the rows after it are not looked at. *)
Theorem ReadAll_typed_row_failure `{Env} tr pick1 pick2 chanID rpm ok r rest cause :
  default_format rpm.(Format) →
  page_answer tr pick1 chanID rpm = inr (ok ++ r :: rest) →
  Forall typed_row_decodes ok →
  StructScan_dbMessage r = inl cause →
  exec tr (ReadAll pick1 pick2 chanID rpm)
  = (MessagesPage_zero, Some (Wrap errReadMessages cause)).
Proof.
  intros Hformat Hpage Hok Hr. rewrite exec_ReadAll, Hpage.
  unfold scan_rows. rewrite decide_True by by rewrite ReadAll_rpm_default.
  by rewrite (scan_senml_first_failure ok r rest _ cause).
Qed.

Lemma ReadAll_typed_row_failure_witness :
  StructScan_dbMessage (TextRow "x") = inl (Foreign "missing destination name") ∧
  exec tr_typed_bad_row (ReadAll [] [] "ch1" (rpm_limit 10 EmptyString))
  = (MessagesPage_zero,
     Some (Wrap errReadMessages (Foreign "missing destination name"))).
Proof.
  split; [reflexivity|].
  apply (ReadAll_typed_row_failure tr_typed_bad_row [] [] "ch1" (rpm_limit 10 EmptyString)
           [SenMLRow "1" "m1"] (TextRow "x") [SenMLRow "2" "m2"]).
  - by left.
  - reflexivity.
  - constructor; [|constructor]. eexists. reflexivity.
  - reflexivity.
Defined.

(** X6. In a generic-format read, when the rows before [r] are decoded and
    [r] is not (its scan fails, or its payload is not a JSON object),
    [ReadAll] returns the empty page and the error of [r], the first row that
    fails, under the tag [errReadMessages]; a later malformed row does not
    change the error. *)
Theorem ReadAll_generic_row_failure `{Env} tr pick1 pick2 chanID rpm ok r rest cause :
  ¬ default_format rpm.(Format) →
  page_answer tr pick1 chanID rpm = inr (ok ++ r :: rest) →
  Forall generic_row_decodes ok →
  row_decode_failure r cause →
  exec tr (ReadAll pick1 pick2 chanID rpm)
  = (MessagesPage_zero, Some (Wrap errReadMessages cause)).
Proof.
  intros Hformat Hpage Hok Hr. rewrite exec_ReadAll, Hpage.
  unfold scan_rows. rewrite decide_False by by rewrite ReadAll_rpm_default.
  by rewrite (scan_json_first_failure ok r rest _ cause).
Qed.

Lemma ReadAll_generic_row_failure_witness :
  row_decode_failure (CountRow 1) (Foreign "missing destination name") ∧
  exec tr_generic_bad_rows (ReadAll [] [] "ch1" (rpm_limit 10 "json"))
  = (MessagesPage_zero,
     Some (Wrap errReadMessages (Foreign "missing destination name"))).
Proof.
  assert (row_decode_failure (CountRow 1) (Foreign "missing destination name")) as Hr
    by (left; reflexivity).
  split; [exact Hr|].
  apply (ReadAll_generic_row_failure tr_generic_bad_rows [] [] "ch1"
           (rpm_limit 10 "json")
           [demo_json_row "{}"] (CountRow 1) [demo_json_row "{"]).
  - intros [Hf|Hf]; discriminate Hf.
  - reflexivity.
  - constructor; [|constructor]. eexists _, _. split; reflexivity.
  - exact Hr.
Defined.

(** A call whose count scalar cannot be scanned. *)
Lemma ReadAll_scan_fails_exec :
  exec tr_scan_fails (ReadAll [] [] "ch1" (rpm_limit 10 EmptyString))
  = ({| PageMetadata' := rpm_limit 10 "messages"; Total := 0;
        Messages := [SenML "m1"] |},
     Some (Foreign "sql: Scan error on column index 0")).
Proof. vm_compute. reflexivity. Qed.

(** X7. Whenever [ReadAll] returns an error, either the page is empty and
    the error carries the tag [errReadMessages], or the scalar of the count
    query could not be scanned: then the error is the bare scan error, and
    the page holds the defaulted metadata, a total of zero and one message
    for each row of the page query. *)
Theorem ReadAll_error_cases `{Env} tr pick1 pick2 chanID rpm page e :
  exec tr (ReadAll pick1 pick2 chanID rpm) = (page, Some e) →
  (page = MessagesPage_zero ∧ tagged errReadMessages e) ∨
  (∃ rows r crows,
     page_answer tr pick1 chanID rpm = inr rows ∧
     count_answer tr pick2 chanID rpm = inr (r :: crows) ∧
     Scan_uint64 r = inl e ∧
     page.(PageMetadata') = ReadAll_rpm rpm ∧
     page.(Total) = 0%N ∧
     length page.(Messages) = length rows).
Proof.
  rewrite exec_ReadAll.
  destruct (page_answer _ _ _ _) as [cause|rows].
  { intros [= <- <-]. left. split; [done|by exists cause]. }
  destruct (scan_rows _ _ _) as [|page0] eqn:Hscan.
  { intros [= <- <-]. left. split; [done|by eapply scan_rows_inl]. }
  destruct (count_answer _ _ _ _) as [cause|[|r crows]]; [|done|].
  { intros [= <- <-]. left. split; [done|by exists cause]. }
  destruct (Scan_uint64 r) as [cause|] eqn:Hcount; [|done].
  intros [= <- <-]. right. exists rows, r, crows.
  apply scan_rows_inr in Hscan as (Hmeta & Htotal & msgs & Hmsgs & Hall).
  cbn in Hmeta, Htotal, Hmsgs. split_and!; [done..|].
  rewrite Hmsgs. case_decide; symmetry; by eapply Forall2_length.
Qed.

Lemma ReadAll_error_cases_witness :
  exec tr_scan_fails (ReadAll [] [] "ch1" (rpm_limit 10 EmptyString))
  = ({| PageMetadata' := rpm_limit 10 "messages"; Total := 0;
        Messages := [SenML "m1"] |},
     Some (Foreign "sql: Scan error on column index 0")) ∧
  ∃ rows r crows,
    page_answer tr_scan_fails [] "ch1" (rpm_limit 10 EmptyString) = inr rows ∧
    count_answer tr_scan_fails [] "ch1" (rpm_limit 10 EmptyString) = inr (r :: crows) ∧
    Scan_uint64 r = inl (Foreign "sql: Scan error on column index 0") ∧
    length [@SenML demo_env "m1"] = length rows.
Proof.
  split; [exact ReadAll_scan_fails_exec|].
  destruct (ReadAll_error_cases tr_scan_fails [] [] "ch1" (rpm_limit 10 EmptyString) _ _
              ReadAll_scan_fails_exec)
    as [[_ [cause Hcause]]|(rows & r & crows & Hp & Hc & Hs & _ & _ & Hlen)].
  - discriminate Hcause.
  - exists rows, r, crows. exact (conj Hp (conj Hc (conj Hs Hlen))).
Defined.

(** ** The presence test of [fmtCondition] *)

Lemma member_string_elem tag s name v :
  (name, v) ∈ member_string tag s ↔
  name = tag ∧ v = String' (json_reread_string s) ∧ s ≠ EmptyString.
Proof.
  unfold member_string. case_decide.
  - rewrite elem_of_nil. tauto.
  - rewrite list_elem_of_singleton. split.
    + by intros [= -> ->].
    + by intros (-> & -> & _).
Qed.

Lemma member_bool_elem tag b name v :
  (name, v) ∈ member_bool tag b ↔ name = tag ∧ v = Bool true ∧ b = true.
Proof.
  destruct b; cbn.
  - rewrite list_elem_of_singleton. split.
    + by intros [= -> ->].
    + by intros (-> & -> & _).
  - rewrite elem_of_nil. split; [done|]. by intros (_ & _ & ?).
Qed.

Lemma member_float64_elem tag f members name v :
  member_float64 tag f = inr members →
  (name, v) ∈ members ↔ name = tag ∧ v = Float64 f ∧ nonzero f.
Proof.
  destruct f; cbn; intros [= <-];
    rewrite ?elem_of_nil, ?list_elem_of_singleton.
  - split; [done|]. by intros (_ & _ & ?).
  - split; [by intros [= -> ->]|by intros (-> & -> & _)].
Qed.

Lemma member_string_keys tag s : (member_string tag s).*1 `sublist_of` [tag].
Proof. unfold member_string. case_decide; [apply sublist_nil_l|done]. Qed.

Lemma member_bool_keys tag b : (member_bool tag b).*1 `sublist_of` [tag].
Proof. destruct b; [done|apply sublist_nil_l]. Qed.

Lemma member_float64_keys tag f members :
  member_float64 tag f = inr members → members.*1 `sublist_of` [tag].
Proof. destruct f; cbn; intros [= <-]; done || apply sublist_nil_l. Qed.

(** The members of the serialized page metadata, when there are any. *)
Lemma json_Marshal_inr rpm meta :
  json_Marshal rpm = inr meta →
  ∃ v from to,
    member_float64 "v" rpm.(Value) = inr v ∧
    member_float64 "from" rpm.(From) = inr from ∧
    member_float64 "to" rpm.(To) = inr to ∧
    meta = member_uint64 "offset" rpm.(Offset) ++
           member_uint64 "limit" rpm.(Limit) ++
           member_string "subtopic" rpm.(Subtopic) ++
           member_string "publisher" rpm.(Publisher) ++
           member_string "protocol" rpm.(Protocol) ++
           member_string "name" rpm.(Name) ++
           v ++
           member_bool "vb" rpm.(BoolValue) ++
           member_string "vs" rpm.(StringValue) ++
           member_string "vd" rpm.(DataValue) ++
           from ++ to ++
           member_string "format" rpm.(Format).
Proof.
  unfold json_Marshal.
  destruct (member_float64 "v" _) as [|v]; [done|].
  destruct (member_float64 "from" _) as [|from]; [done|].
  destruct (member_float64 "to" _) as [|to]; [done|].
  intros [= <-]. by exists v, from, to.
Qed.

(** No tag is serialized twice. *)
Lemma json_Marshal_NoDup rpm meta : json_Marshal rpm = inr meta → NoDup meta.*1.
Proof.
  intros (v & from & to & Hv & Hfrom & Hto & ->)%json_Marshal_inr.
  apply (sublist_NoDup _
    (["offset"] ++ ["limit"] ++ ["subtopic"] ++ ["publisher"] ++ ["protocol"] ++
     ["name"] ++ ["v"] ++ ["vb"] ++ ["vs"] ++ ["vd"] ++ ["from"] ++ ["to"] ++
     ["format"])).
  { apply (bool_decide_unpack _). by vm_compute. }
  rewrite !fmap_app.
  repeat apply sublist_app;
    eauto using member_string_keys, member_bool_keys, member_float64_keys.
Qed.

Lemma query_of_elem rpm meta name v :
  json_Marshal rpm = inr meta →
  query_of rpm !! name = Some v ↔ (name, v) ∈ meta.
Proof.
  intros Hm. unfold query_of, json_Unmarshal_map. rewrite Hm.
  rewrite <- (elem_of_reverse _ meta). split.
  - apply elem_of_list_to_map_2.
  - apply elem_of_list_to_map_1.
    rewrite fmap_reverse, reverse_Permutation. by eapply json_Marshal_NoDup.
Qed.

Lemma unlisted_tags :
  ("offset" ∉ filter_fields) ∧ ("limit" ∉ filter_fields) ∧ ("format" ∉ filter_fields).
Proof. split_and!; apply (bool_decide_unpack _); by vm_compute. Qed.

(** The members of the serialized page metadata, by tag. *)
Lemma json_Marshal_elem rpm meta name v :
  json_Marshal rpm = inr meta →
  (name, v) ∈ meta →
  name ∉ filter_fields ∨
  name = "subtopic" ∧ v = String' (json_reread_string rpm.(Subtopic)) ∧ rpm.(Subtopic) ≠ EmptyString ∨
  name = "publisher" ∧ v = String' (json_reread_string rpm.(Publisher)) ∧ rpm.(Publisher) ≠ EmptyString ∨
  name = "protocol" ∧ v = String' (json_reread_string rpm.(Protocol)) ∧ rpm.(Protocol) ≠ EmptyString ∨
  name = "name" ∧ v = String' (json_reread_string rpm.(Name)) ∧ rpm.(Name) ≠ EmptyString ∨
  name = "v" ∧ v = Float64 rpm.(Value) ∧ nonzero rpm.(Value) ∨
  name = "vb" ∧ v = Bool true ∧ rpm.(BoolValue) = true ∨
  name = "vs" ∧ v = String' (json_reread_string rpm.(StringValue)) ∧ rpm.(StringValue) ≠ EmptyString ∨
  name = "vd" ∧ v = String' (json_reread_string rpm.(DataValue)) ∧ rpm.(DataValue) ≠ EmptyString ∨
  name = "from" ∧ v = Float64 rpm.(From) ∧ nonzero rpm.(From) ∨
  name = "to" ∧ v = Float64 rpm.(To) ∧ nonzero rpm.(To).
Proof.
  intros (mv & mf & mt & Hmv & Hmf & Hmt & ->)%json_Marshal_inr Hv.
  destruct unlisted_tags as (Hoffset & Hlimit & Hformat).
  unfold member_uint64 in Hv.
  rewrite !elem_of_app, !member_string_elem, member_bool_elem,
    (member_float64_elem _ _ _ _ _ Hmv), (member_float64_elem _ _ _ _ _ Hmf),
    (member_float64_elem _ _ _ _ _ Hmt), !list_elem_of_singleton in Hv.
  destruct Hv as [[= -> _]|[[= -> _]|Hv]]; [by left..|].
  repeat match type of Hv with
         | _ ∨ _ => destruct Hv as [Hv|Hv]
         end; try tauto.
  destruct Hv as [-> _]. by left.
Qed.

Lemma filter_set_of_present rpm name :
  name ∈ filter_fields → present rpm name → filter_set rpm name.
Proof.
  intros Hfield [v Hv]. destruct (query_of_lookup _ _ _ Hv) as (meta & Hm & Hin).
  destruct (json_Marshal_elem _ _ _ _ Hm Hin) as [Hout|Hcases]; [done|].
  unfold filter_set. tauto.
Qed.

Lemma filter_set_field rpm name : filter_set rpm name → name ∈ filter_fields.
Proof.
  unfold filter_set, filter_fields. intros Hset.
  repeat match type of Hset with
         | _ ∨ _ => destruct Hset as [Hset|Hset]
         end;
    destruct Hset as [-> _]; apply (bool_decide_unpack _); vm_compute; exact I.
Qed.

Lemma present_of_filter_set rpm name meta :
  json_Marshal rpm = inr meta → filter_set rpm name → present rpm name.
Proof.
  intros Hm Hset.
  assert (∃ v, (name, v) ∈ meta) as [v Hv];
    [|exists v; by apply (query_of_elem _ _ _ _ Hm)].
  apply json_Marshal_inr in Hm as (mv & mf & mt & Hmv & Hmf & Hmt & ->).
  unfold filter_set in Hset.
  repeat match type of Hset with
         | _ ∨ _ => destruct Hset as [Hset|Hset]
         end;
    destruct Hset as [-> Hvalue]; eexists;
    repeat first
      [ apply elem_of_app; left;
        solve
          [ apply member_string_elem; split_and!; [reflexivity..|exact Hvalue]
          | apply member_bool_elem; split_and!; [reflexivity..|exact Hvalue]
          | apply (member_float64_elem _ _ _ _ _ Hmv);
            split_and!; [reflexivity..|exact Hvalue]
          | apply (member_float64_elem _ _ _ _ _ Hmf);
            split_and!; [reflexivity..|exact Hvalue]
          | apply (member_float64_elem _ _ _ _ _ Hmt);
            split_and!; [reflexivity..|exact Hvalue] ]
      | apply elem_of_app; right ].
Qed.

(** X8. A filter field is present for [fmtCondition] exactly when the page
    metadata can be serialized and the field holds a value other than its
    zero value: an empty string, [false] and the number zero are never
    filtered on. *)
Theorem present_filter_set rpm name :
  name ∈ filter_fields →
  present rpm name ↔ (∃ meta, json_Marshal rpm = inr meta) ∧ filter_set rpm name.
Proof.
  intros Hfield. split.
  - intros Hpresent. split; [|by apply filter_set_of_present].
    destruct Hpresent as [v Hv].
    destruct (query_of_lookup _ _ _ Hv) as (meta & Hm & _). by exists meta.
  - intros [[meta Hm] Hset]. by eapply present_of_filter_set.
Qed.

Lemma present_filter_set_witness :
  "vb" ∈ filter_fields ∧
  present rpm_two_filters "subtopic" ∧
  ¬ present rpm_two_filters "vb".
Proof.
  assert ("vb" ∈ filter_fields) as Hvb
    by (apply (bool_decide_unpack _); vm_compute; exact I).
  assert ("subtopic" ∈ filter_fields) as Hsubtopic
    by (apply (bool_decide_unpack _); vm_compute; exact I).
  split; [exact Hvb|]. split.
  - apply (present_filter_set rpm_two_filters "subtopic" Hsubtopic).
    split; [eexists; reflexivity|]. left. split; [reflexivity|discriminate].
  - intros Hpresent.
    apply (present_filter_set rpm_two_filters "vb" Hvb) in Hpresent as [_ Hset].
    unfold filter_set in Hset.
    repeat match type of Hset with
           | _ ∨ _ => destruct Hset as [Hset|Hset]
           end;
      destruct Hset as [Hname Hvalue]; discriminate.
Defined.

(** ** The text of the predicate *)

Lemma filter_ext_in {A} (P Q : A → Prop) `{∀ x, Decision (P x), ∀ x, Decision (Q x)}
    (l : list A) :
  (∀ x, x ∈ l → P x ↔ Q x) → filter P l = filter Q l.
Proof.
  induction l as [|x l IH]; intros Hext; [done|].
  assert (filter P l = filter Q l) as Hl.
  { apply IH. intros y Hy. apply Hext. by right. }
  destruct (decide (P x)) as [HP|HP].
  - rewrite !filter_cons_True; [by rewrite Hl| |done]. apply Hext; [left|done].
  - rewrite !filter_cons_False; [done| |done]. intros HQ. apply HP, Hext; [left|done].
Qed.

Lemma fmtCondition_same_presence chanID1 chanID2 rpm1 rpm2 pick :
  (∀ name, name ∈ filter_fields → present rpm1 name ↔ present rpm2 name) →
  ∃ pick', fmtCondition pick' chanID2 rpm2 = fmtCondition pick chanID1 rpm1.
Proof.
  intros Hsame. rewrite (fmtCondition_shape pick chanID1 rpm1).
  apply fmtCondition_any_order.
  rewrite listed_keys_present. by rewrite (filter_ext_in _ _ _ Hsame).
Qed.

(** X9. The text of the predicate depends only on which filter fields are
    present: two requests with the same present fields, whatever the channel
    and the values of the fields, the limit, the offset and the format, get
    the same predicates. The values reach the database through the named
    parameters only. *)
Theorem fmtCondition_presence_only chanID1 chanID2 rpm1 rpm2 condition :
  (∀ name, name ∈ filter_fields → present rpm1 name ↔ present rpm2 name) →
  (∃ pick, fmtCondition pick chanID1 rpm1 = condition) ↔
  (∃ pick, fmtCondition pick chanID2 rpm2 = condition).
Proof.
  intros Hsame. split; intros [pick <-].
  - by apply fmtCondition_same_presence.
  - apply fmtCondition_same_presence. intros name Hname.
    symmetry. by apply Hsame.
Qed.

Lemma fmtCondition_presence_only_witness :
  (∃ pick, fmtCondition pick "ch1" rpm_two_filters
           = "channel = :channel AND subtopic = :subtopic AND publisher = :publisher") ∧
  (∃ pick, fmtCondition pick "ch2" rpm_two_filters'
           = "channel = :channel AND subtopic = :subtopic AND publisher = :publisher").
Proof.
  assert (∃ pick, fmtCondition pick "ch1" rpm_two_filters
           = "channel = :channel AND subtopic = :subtopic AND publisher = :publisher")
    as Hfirst by (exists []; vm_compute; reflexivity).
  split; [exact Hfirst|].
  apply (fmtCondition_presence_only "ch1" "ch2" rpm_two_filters rpm_two_filters');
    [|exact Hfirst].
  intros name Hname. unfold filter_fields in Hname.
  repeat (apply elem_of_cons in Hname as [->|Hname]);
    [..|by apply elem_of_nil in Hname];
    split; intros Hp; apply (bool_decide_unpack _);
    apply (bool_decide_pack _) in Hp; vm_compute in Hp; vm_compute; exact Hp.
Defined.

(** X10. With no filter field set, the two queries of [ReadAll] select on the
    channel alone: the predicate of the SELECT and of the COUNT is exactly
    [channel = :channel], whatever the order of iteration. *)
Theorem ReadAll_no_filter `{Env} pick1 pick2 chanID rpm :
  (∀ name, ¬ filter_set rpm name) →
  first_query (ReadAll pick1 pick2 chanID rpm)
  = Some (Str.concat
      ["SELECT * FROM "; (ReadAll_rpm rpm).(Format); Str.LF;
       "    WHERE "; "channel = :channel";
       " ORDER BY "; ReadAll_order rpm; " DESC"; Str.LF;
       Str.TAB; "LIMIT :limit OFFSET :offset;"]) ∧
  count_query pick2 chanID (ReadAll_rpm rpm)
  = Str.concat ["SELECT COUNT(*) FROM "; (ReadAll_rpm rpm).(Format);
                " WHERE "; "channel = :channel"; ";"].
Proof.
  intros Hnone.
  assert (∀ pick, fmtCondition pick chanID (ReadAll_rpm rpm) = "channel = :channel")
    as Hcondition.
  { intros pick. rewrite fmtCondition_shape.
    pose proof (listed_keys_present pick (ReadAll_rpm rpm)) as Hkeys.
    rewrite (filter_none (present (ReadAll_rpm rpm))) in Hkeys.
    - apply Permutation_nil_r in Hkeys. by rewrite Hkeys.
    - intros name Hfield Hpresent%filter_set_of_present; [|done].
      apply (Hnone name). revert Hpresent.
      unfold ReadAll_rpm. by case_decide. }
  unfold ReadAll, first_query, select_query, count_query.
  by rewrite !Hcondition.
Qed.

Lemma ReadAll_no_filter_witness :
  (∀ name, ¬ filter_set (rpm_limit 10 EmptyString) name) ∧
  first_query (ReadAll [] [] "ch1" (rpm_limit 10 EmptyString))
  = Some (Str.concat
      ["SELECT * FROM "; "messages"; Str.LF;
       "    WHERE "; "channel = :channel";
       " ORDER BY "; "time"; " DESC"; Str.LF;
       Str.TAB; "LIMIT :limit OFFSET :offset;"]).
Proof.
  assert (∀ name, ¬ filter_set (rpm_limit 10 EmptyString) name) as Hnone.
  { intros name Hset. unfold filter_set in Hset.
    repeat match type of Hset with
           | _ ∨ _ => destruct Hset as [Hset|Hset]
           end;
      destruct Hset as [_ Hvalue]; cbn in Hvalue; done. }
  split; [exact Hnone|].
  destruct (ReadAll_no_filter (H := demo_env) [] [] "ch1" (rpm_limit 10 EmptyString) Hnone)
    as [Hselect _].
  exact Hselect.
Defined.

(** X11. A filter field that holds a value, in page metadata that can be
    serialized, always gets its clause into the predicate, whatever the order
    of iteration. *)
Theorem filter_set_applied pick chanID rpm name meta :
  json_Marshal rpm = inr meta →
  filter_set rpm name →
  Str.contains (clause name) (fmtCondition pick chanID rpm) = true.
Proof.
  intros Hm Hset. apply fmtCondition_contains_clause.
  - by apply (filter_set_field rpm).
  - by eapply present_of_filter_set.
Qed.

Lemma filter_set_applied_witness :
  filter_set rpm_two_filters "publisher" ∧
  Str.contains " AND publisher = :publisher" (fmtCondition [5] "ch1" rpm_two_filters)
  = true.
Proof.
  assert (filter_set rpm_two_filters "publisher") as Hset.
  { right; left. split; [reflexivity|discriminate]. }
  split; [exact Hset|].
  destruct (json_Marshal rpm_two_filters) as [|meta] eqn:Hm; [discriminate Hm|].
  exact (filter_set_applied [5] "ch1" rpm_two_filters "publisher" meta Hm Hset).
Defined.

(** X12. The SELECT and the COUNT of one call filter on the same clauses:
    their predicates are [channel = :channel] followed by the same AND
    clauses, in orders that may differ, so the total counts the rows the page
    is taken from. *)
Theorem ReadAll_same_filters pick1 pick2 chanID rpm order :
  ∃ names1 names2,
    names1 ≡ₚ names2 ∧
    select_query pick1 chanID rpm order
    = Str.concat ["SELECT * FROM "; rpm.(Format); Str.LF;
                  "    WHERE ";
                  "channel = :channel" +:+ Str.concat (clause <$> names1);
                  " ORDER BY "; order; " DESC"; Str.LF;
                  Str.TAB; "LIMIT :limit OFFSET :offset;"] ∧
    count_query pick2 chanID rpm
    = Str.concat ["SELECT COUNT(*) FROM "; rpm.(Format);
                  " WHERE ";
                  "channel = :channel" +:+ Str.concat (clause <$> names2); ";"].
Proof.
  exists (filter (.∈ filter_fields) (range_keys pick1 (query_of rpm))),
         (filter (.∈ filter_fields) (range_keys pick2 (query_of rpm))).
  split_and!.
  - by rewrite !listed_keys_present.
  - unfold select_query. by rewrite fmtCondition_shape.
  - unfold count_query. by rewrite fmtCondition_shape.
Qed.

(** ** The named parameters *)

(** X13. Each clause [fmtCondition] can write compares a column with one
    named parameter, and [ReadAll] binds that parameter to the field of the
    request whose serialized value, as it is read back into the generic map,
    makes the builder write the clause: the tag and the parameter name the
    same field. For a string the value read back is the field with every
    byte that is not valid UTF-8 replaced by U+FFFD; the parameter is the
    field as it is. *)
Theorem clause_parameter_bound chanID rpm name v :
  name ∈ filter_fields →
  query_of rpm !! name = Some v →
  ∃ column op param bound,
    clause name = Str.concat [" AND "; column; op; ":"; param] ∧
    op ∈ [" = "; " >= "; " < "] ∧
    query_params chanID rpm !! param = Some bound ∧
    v = json_reread bound.
Proof.
  intros Hfield Hv. destruct (query_of_lookup _ _ _ Hv) as (meta & Hm & Hin).
  destruct (json_Marshal_elem _ _ _ _ Hm Hin) as [Hout|Hcases]; [done|].
  unfold query_params.
  repeat match type of Hcases with
         | _ ∨ _ => destruct Hcases as [Hcases|Hcases]
         end;
    destruct Hcases as (-> & -> & Hvalue).
  - exists "subtopic", " = ", "subtopic", (String' rpm.(Subtopic)).
    split_and!; [done|by left|done..].
  - exists "publisher", " = ", "publisher", (String' rpm.(Publisher)).
    split_and!; [done|by left|done..].
  - exists "protocol", " = ", "protocol", (String' rpm.(Protocol)).
    split_and!; [done|by left|done..].
  - exists "name", " = ", "name", (String' rpm.(Name)).
    split_and!; [done|by left|done..].
  - exists "value", " = ", "value", (Float64 rpm.(Value)).
    split_and!; [done|by left|done..].
  - exists "bool_value", " = ", "bool_value", (Bool rpm.(BoolValue)).
    split_and!; [done|by left|done|by rewrite Hvalue].
  - exists "string_value", " = ", "string_value", (String' rpm.(StringValue)).
    split_and!; [done|by left|done..].
  - exists "data_value", " = ", "data_value", (String' rpm.(DataValue)).
    split_and!; [done|by left|done..].
  - exists "time", " >= ", "from", (Float64 rpm.(From)).
    split_and!; [done|by right; left|done..].
  - exists "time", " < ", "to", (Float64 rpm.(To)).
    split_and!; [done|by do 2 right; left|done..].
Qed.

Lemma clause_parameter_bound_witness :
  query_of rpm_invalid_utf8 !! "subtopic" = Some (String' replacement_character) ∧
  ∃ column op param bound,
    clause "subtopic" = Str.concat [" AND "; column; op; ":"; param] ∧
    query_params "ch1" rpm_invalid_utf8 !! param = Some bound ∧
    String' replacement_character = json_reread bound.
Proof.
  assert (query_of rpm_invalid_utf8 !! "subtopic"
          = Some (String' replacement_character)) as Hv
    by (vm_compute; reflexivity).
  split; [exact Hv|].
  destruct (clause_parameter_bound "ch1" rpm_invalid_utf8 "subtopic" _
              ltac:(apply (bool_decide_unpack _); vm_compute; exact I) Hv)
    as (column & op & param & bound & Hclause & _ & Hparam & Hbound).
  exists column, op, param, bound. exact (conj Hclause (conj Hparam Hbound)).
Defined.

(** ** toMap *)

(** X14. [toMap] fails exactly when the payload does not decode, with the
    error of the decoder as it is; otherwise it returns a mapping with the
    seven keys [id], [channel], [created], [subtopic], [publisher],
    [protocol] and [payload], holding the scalar columns and the decoded
    payload, and replacing [payload] by its flattened form keeps the keys. *)
Theorem toMap_result `{Env} msg :
  match json_Unmarshal msg.(jsonMessage.Payload) with
  | inl cause => toMap msg = inl cause
  | inr pld =>
      ∃ m, toMap msg = inr m ∧
           dom m = toMap_keys ∧
           m !! "payload" = Some (Map pld) ∧
           m !! "id" = Some (String' msg.(jsonMessage.ID)) ∧
           m !! "channel" = Some (String' msg.(jsonMessage.Channel)) ∧
           m !! "created" = Some (Int64 msg.(jsonMessage.Created)) ∧
           m !! "subtopic" = Some (String' msg.(jsonMessage.Subtopic)) ∧
           m !! "publisher" = Some (String' msg.(jsonMessage.Publisher)) ∧
           m !! "protocol" = Some (String' msg.(jsonMessage.Protocol)) ∧
           dom (<["payload" := ParseFlat (m !!! "payload")]> m) = toMap_keys
  end.
Proof.
  unfold toMap. destruct (json_Unmarshal _) as [cause|pld]; [done|].
  eexists. split; [reflexivity|].
  match goal with |- dom ?m0 = _ ∧ _ => set (m := m0) end.
  assert (dom m = toMap_keys) as Hdom.
  { unfold m, toMap_keys. rewrite dom_insert_L, dom_list_to_map_L. cbn. set_solver. }
  split_and!; [exact Hdom|..].
  - apply lookup_insert_eq.
  - by apply lookup_insert_Some; right.
  - by apply lookup_insert_Some; right.
  - by apply lookup_insert_Some; right.
  - by apply lookup_insert_Some; right.
  - by apply lookup_insert_Some; right.
  - by apply lookup_insert_Some; right.
  - rewrite dom_insert_L, Hdom. unfold toMap_keys. cbn. set_solver.
Qed.
